(** * maubot: the management API's log collector and log websocket

    A shallow embedding of [maubot/management/api/log.py]: the
    [LogCollector] logging handler (record transform, bounded history,
    fan-out to the listening websockets), the module functions [init] and
    [stop_all], and the [/logs] websocket handler [log_websocket] with its
    authentication timer.

    Python objects are modelled as follows.
    - The module-level and handler-level mutable objects ([handler.lines],
      [handler.listeners], [handler.loop], [sockets], the handler list of
      the root logger) live in one record, [world], threaded through a
      state-and-exception monad.
    - Every call that reaches outside the process (a websocket send or
      close, [print], [log.debug]) is appended to [trace], in call order.
    - What the standard library, aiohttp and the sibling module [auth]
      compute is not fixed here: it is the class [Runtime], over which all
      results are quantified. *)

From Stdlib Require Import ZArith Lia QArith Lqa.
From stdpp Require Import base gmap strings list.

Close Scope Q_scope.

Open Scope string_scope.
Open Scope list_scope.

(** ** Python values, exceptions and dicts *)

(** [datetime.datetime]: a point in time in microseconds since the epoch,
    naive ([tz = None]) or aware (offset to UTC in seconds). *)
Record datetime := { micros : Z; tz : option Z }.

#[local] Unset Elimination Schemes.
Inductive value :=
| VNone
| VBool (b : bool)
| VInt (z : Z)
| VFloat (m e : Z)                (* the double m * 2^e *)
| VStr (s : string)
| VDatetime (d : datetime)
| VTuple (items : list value)
| VObj (repr : string).           (* any other object, by its repr *)
#[local] Set Elimination Schemes.

(** Truth value of an object, as tested by [if record.exc_info:]. *)
Definition truthy (v : value) : bool :=
  match v with
  | VNone => false
  | VBool b => b
  | VInt z => negb (z =? 0)%Z
  | VFloat m _ => negb (m =? 0)%Z
  | VStr s => negb (String.eqb s "")
  | VDatetime _ => true
  | VTuple items => negb (Nat.eqb (length items) 0)
  | VObj _ => true
  end.

(** [isinstance(value, datetime)]. *)
Definition is_datetime (v : value) : bool :=
  match v with VDatetime _ => true | _ => false end.

(** Instances of [Exception], the class named by every [except] clause of
    the module.  Exits and interrupts, which derive from [BaseException]
    only, are not failures of a step and are not modelled. *)
Inductive exn :=
| AttributeError (attr : string)
| ValueError (what : string)
| RuntimeError (what : string)
| OtherError (class text : string).

Module Dict.

(** A [dict]: its items in insertion order, keys pairwise distinct. *)
Definition t := list (string * value).

Definition keys (d : t) : list string := d.*1.

Fixpoint get (k : string) (d : t) : option value :=
  match d with
  | [] => None
  | (k', v) :: d' => if String.eqb k' k then Some v else get k d'
  end.

Definition mem (k : string) (d : t) : bool :=
  match get k d with Some _ => true | None => false end.

(** [d[k] = v]: an existing key keeps its position, a new one goes last. *)
Fixpoint set (k : string) (v : value) (d : t) : t :=
  match d with
  | [] => [(k, v)]
  | (k', v') :: d' =>
      if String.eqb k' k then (k', v) :: d' else (k', v') :: set k v d'
  end.

(** [{n: v for n, v in d.items() if keep n}]. *)
Definition comprehension (keep : string -> bool) (d : t) : t :=
  List.filter (fun kv => keep kv.1) d.

End Dict.

(** ** The attribute sets (log.py lines 30-65) *)

Definition BUILTIN_ATTRS : gset string :=
  list_to_set
    [ "args"; "asctime"; "created"; "exc_info"; "exc_text"; "filename";
      "funcName"; "levelname"; "levelno"; "lineno"; "module"; "msecs";
      "message"; "msg"; "name"; "pathname"; "process"; "processName";
      "relativeCreated"; "stack_info"; "thread"; "threadName" ].

Definition INCLUDE_ATTRS : gset string :=
  list_to_set
    [ "filename"; "funcName"; "levelname"; "levelno"; "lineno"; "module";
      "name"; "pathname" ].

Definition EXCLUDE_ATTRS : gset string := BUILTIN_ATTRS ∖ INCLUDE_ATTRS.

Definition MAX_LINES : nat := 2048.

(** [name not in EXCLUDE_ATTRS]. *)
Definition not_excluded (name : string) : bool :=
  bool_decide (name ∉ EXCLUDE_ATTRS).

(** ** Websockets, wire messages and observable calls *)

(** A [web.WebSocketResponse] object, by identity. *)
Definition ws := nat.

(** The bodies passed to [ws.send_json]. *)
Inductive json_msg :=
| AuthSuccess (ok : bool)            (* {"auth_success": ok} *)
| History (events : list Dict.t)     (* {"history": [...]} *)
| Event (content : Dict.t).          (* one transformed record *)

Inductive debug_msg :=
| ClosingAll                          (* "Closing log listener websockets" *)
| Opened (s : ws)
| Authenticated (s : ws)
| TerminatedNoAuth (s : ws)
| Closed (s : ws).

(** A call leaving the module, with the exception it raised, if any. *)
Inductive call :=
| SendJson (s : ws) (m : json_msg) (failure : option exn)
| CloseWs (s : ws) (code : Z) (failure : option exn)
| Print (prefix : string) (e : exn)
| LogDebug (m : debug_msg).

(** [handler.loop]: the attribute is only declared in the class body, and
    set by [init]; the loop holds the coroutines handed to it by
    [run_coroutine_threadsafe], oldest first. *)
Record event_loop := { loop_closed : bool; pending : list Dict.t }.

Record world := {
  lines : list Dict.t;          (* handler.lines, deque(maxlen=MAX_LINES) *)
  listeners : list ws;          (* handler.listeners *)
  loop : option event_loop;     (* handler.loop, None while unset *)
  sockets : list ws;            (* the module global *)
  attached : bool;              (* handler in logging.root.handlers *)
  authenticated : gset ws;      (* the connections whose flag is True *)
  trace : list call             (* calls made so far, oldest first *)
}.

(** The state of the module right after import: [handler = LogCollector()],
    [sockets = []].  Each run of [log_websocket] has a local variable
    [authenticated], shared with its nested timer coroutine; the cells of all
    connections are kept in the field of that name. *)
Definition fresh : world :=
  {| lines := []; listeners := []; loop := None; sockets := [];
     attached := false; authenticated := ∅; trace := [] |}.

Definition set_lines (f : list Dict.t -> list Dict.t) (w : world) : world :=
  {| lines := f (lines w); listeners := listeners w; loop := loop w;
     sockets := sockets w; attached := attached w;
     authenticated := authenticated w; trace := trace w |}.
Definition set_listeners (f : list ws -> list ws) (w : world) : world :=
  {| lines := lines w; listeners := f (listeners w); loop := loop w;
     sockets := sockets w; attached := attached w;
     authenticated := authenticated w; trace := trace w |}.
Definition set_loop (l : option event_loop) (w : world) : world :=
  {| lines := lines w; listeners := listeners w; loop := l;
     sockets := sockets w; attached := attached w;
     authenticated := authenticated w; trace := trace w |}.
Definition set_sockets (f : list ws -> list ws) (w : world) : world :=
  {| lines := lines w; listeners := listeners w; loop := loop w;
     sockets := f (sockets w); attached := attached w;
     authenticated := authenticated w; trace := trace w |}.
Definition set_attached (b : bool) (w : world) : world :=
  {| lines := lines w; listeners := listeners w; loop := loop w;
     sockets := sockets w; attached := b;
     authenticated := authenticated w; trace := trace w |}.
Definition set_authenticated (f : gset ws -> gset ws) (w : world) : world :=
  {| lines := lines w; listeners := listeners w; loop := loop w;
     sockets := sockets w; attached := attached w;
     authenticated := f (authenticated w); trace := trace w |}.
Definition log_call (c : call) (w : world) : world :=
  {| lines := lines w; listeners := listeners w; loop := loop w;
     sockets := sockets w; attached := attached w;
     authenticated := authenticated w; trace := trace w ++ [c] |}.

(** ** Statements that may raise *)

Inductive outcome (A : Type) :=
| Val (a : A)
| Exc (e : exn).
Arguments Val {A} a.
Arguments Exc {A} e.

(** A statement: from the state before it to its result, or the exception
    it raised, and the state it leaves behind in either case. *)
Definition M (A : Type) : Type := world -> outcome A * world.

Definition ret {A} (a : A) : M A := fun w => (Val a, w).
Definition raise {A} (e : exn) : M A := fun w => (Exc e, w).
Definition bind {A B} (m : M A) (k : A -> M B) : M B :=
  fun w => match m w with
           | (Val a, w') => k a w'
           | (Exc e, w') => (Exc e, w')
           end.
(** [try: body  except Exception as e: handler e]. *)
Definition try_except {A} (body : M A) (handler : exn -> M A) : M A :=
  fun w => match body w with
           | (Val a, w') => (Val a, w')
           | (Exc e, w') => handler e w'
           end.
Definition modify (f : world -> world) : M unit := fun w => (Val tt, f w).
Definition gets {A} (f : world -> A) : M A := fun w => (Val (f w), w).
(** A library call whose result is already known. *)
Definition lift {A} (r : exn + A) : M A :=
  match r with inl e => raise e | inr a => ret a end.

Declare Scope py_scope.
Delimit Scope py_scope with py.
Notation "x <- m ;; k" := (bind m (fun x => k))
  (at level 100, m at next level, right associativity) : py_scope.
Notation "m ;; k" := (bind m (fun _ => k))
  (at level 100, right associativity) : py_scope.
Open Scope py_scope.

(** ** What the module imports *)

Class Runtime := {
  (** [auth.is_valid_token]. *)
  is_valid_token : string -> bool;
  (** [str(x)] of a float. *)
  py_str : value -> string;
  (** [record.getMessage()]: [str(msg) % args], which may raise. *)
  getMessage : Dict.t -> exn + string;
  (** [datetime.fromtimestamp(x)]. *)
  fromtimestamp : value -> exn + datetime;
  (** [formatter.formatException(exc_info)]. *)
  formatException : value -> exn + string;
  (** [d.astimezone().isoformat()]. *)
  astimezone_isoformat : datetime -> exn + string;
  (** Whether [ws.send_json(m)] raises, given everything done so far. *)
  send_json_failure : world -> ws -> json_msg -> option exn;
  (** Whether [ws.close(code=code)] raises. *)
  close_failure : world -> ws -> Z -> option exn
}.

Section Module_log.

Context {R : Runtime}.

(** ** Calls on a websocket, [print] and [log.debug] *)

(** [await ws.send_json(m)]. *)
Definition ws_send_json (s : ws) (m : json_msg) : M unit :=
  fun w =>
    let failure := send_json_failure w s m in
    let w' := log_call (SendJson s m failure) w in
    match failure with
    | None => (Val tt, w')
    | Some e => (Exc e, w')
    end.

(** [await ws.close(code=code)]; aiohttp's default code is 1000. *)
Definition ws_close (s : ws) (code : Z) : M unit :=
  fun w =>
    let failure := close_failure w s code in
    let w' := log_call (CloseWs s code failure) w in
    match failure with
    | None => (Val tt, w')
    | Some e => (Exc e, w')
    end.

(** [print(prefix, e)] on a standard output that takes the line; the call
    that may raise is [Live.print], further down. *)
Definition print (prefix : string) (e : exn) : M unit :=
  modify (log_call (Print prefix e)).

(** [log.debug(...)] on the logger "maubot.server.websocket"; whether the
    line comes back to the collector is up to the logging configuration
    and is left out. *)
Definition log_debug (m : debug_msg) : M unit :=
  modify (log_call (LogDebug m)).

(** ** [for x in xs: body], the list not changing meanwhile *)

Fixpoint for_in {A} (xs : list A) (body : A -> M unit) : M unit :=
  match xs with
  | [] => ret tt
  | x :: xs' => body x ;; for_in xs' body
  end.

(** ** class LogCollector *)

(** [deque.append] on a deque with [maxlen]: the new item goes to the right
    end, and the leftmost one is dropped if the deque is then too long. *)
Definition deque_append {A} (maxlen : nat) (x : A) (d : list A) : list A :=
  let d' := d ++ [x] in
  if (maxlen <? length d')%nat then tail d' else d'.

(** [record.name], the record being its [__dict__]. *)
Definition getattr (record : Dict.t) (name : string) : M value :=
  match Dict.get name record with
  | Some v => ret v
  | None => raise (AttributeError name)
  end.

(** Lines 99-101: the items are visited in order and a [datetime] is
    replaced, under its own key, by its ISO string. *)
Fixpoint isoformat_items (items : Dict.t) (content : Dict.t) : exn + Dict.t :=
  match items with
  | [] => inr content
  | (name, v) :: rest =>
      match v with
      | VDatetime d =>
          match astimezone_isoformat d with
          | inl e => inl e
          | inr s => isoformat_items rest (Dict.set name (VStr s) content)
          end
      | _ => isoformat_items rest content
      end
  end.

(** Lines 89-101 of [_emit]: the transformed event of a record. *)
Definition build_content (record : Dict.t) : M Dict.t :=
  let content := Dict.comprehension not_excluded record in
  relativeCreated <- getattr record "relativeCreated" ;;
  let content := Dict.set "id" (VStr (py_str relativeCreated)) content in
  msg <- lift (getMessage record) ;;
  let content := Dict.set "msg" (VStr msg) content in
  created <- getattr record "created" ;;
  time <- lift (fromtimestamp created) ;;
  let content := Dict.set "time" (VDatetime time) content in
  exc_info <- getattr record "exc_info" ;;
  content <- (if truthy exc_info
              then text <- lift (formatException exc_info) ;;
                   ret (Dict.set "exc_info" (VStr text) content)
              else ret content) ;;
  lift (isoformat_items content content).

(** Line 102: [asyncio.run_coroutine_threadsafe(self.send(content),
    loop=self.loop)].  Reading [self.loop] fails before [init], and a closed
    loop refuses the callback; otherwise the coroutine is queued. *)
Definition run_coroutine_threadsafe (content : Dict.t) : M unit :=
  fun w =>
    match loop w with
    | None => (Exc (AttributeError "loop"), w)
    | Some l =>
        if loop_closed l
        then (Exc (RuntimeError "Event loop is closed"), w)
        else (Val tt, set_loop (Some {| loop_closed := false;
                                        pending := pending l ++ [content] |}) w)
    end.

(** Line 103: [self.lines.append(content)]. *)
Definition lines_append (content : Dict.t) : M unit :=
  modify (set_lines (deque_append MAX_LINES content)).

Definition _emit (record : Dict.t) : M unit :=
  content <- build_content record ;;
  run_coroutine_threadsafe content ;;
  lines_append content.

Definition emit (record : Dict.t) : M unit :=
  try_except (_emit record) (fun e => print "Logging error:" e).

(** The body of the loop of [send], for one listener. *)
Definition send_to (record : Dict.t) (s : ws) : M unit :=
  try_except (ws_send_json s (Event record))
             (fun e => print "Log sending error:" e).

(** [send], run while no other task changes [self.listeners]. *)
Definition send (record : Dict.t) : M unit :=
  ls <- gets listeners ;;
  for_in ls (send_to record).

(** One turn of the loop of [send].  A list iterator is an index into
    the list: each turn reads the list as it is then, and the iterator is
    exhausted once the index is past its end.  The turn ends where the
    coroutine waits for the websocket, which is where other tasks of the
    event loop run. *)
Definition send_turn (record : Dict.t) (i : nat) : M (option nat) :=
  fun w =>
    match listeners w !! i with
    | None => (Val None, w)
    | Some s => (send_to record s ;; ret (Some (S i))) w
    end.

(** [list(handler.lines)]. *)
Definition snapshot (w : world) : list Dict.t := lines w.


(** ** Module functions *)

(** The event loop as [init] receives it: open, nothing queued. *)
Definition new_event_loop : event_loop :=
  {| loop_closed := false; pending := [] |}.

Definition init (l : event_loop) : M unit :=
  modify (set_attached true) ;;
  modify (set_loop (Some l)).

(** What [logging] does with a record that reaches the root logger: it
    is handed to [handler.emit] while the handler is attached (the handler's
    level is NOTSET). *)
Definition callHandlers (record : Dict.t) : M unit :=
  a <- gets attached ;;
  if a then emit record else ret tt.

(** [xs.remove(x)]: the first occurrence goes, [ValueError] if there is
    none. *)
Fixpoint remove_first (x : ws) (xs : list ws) : option (list ws) :=
  match xs with
  | [] => None
  | y :: xs' =>
      if Nat.eqb y x then Some xs'
      else match remove_first x xs' with
           | Some r => Some (y :: r)
           | None => None
           end
  end.

Definition listeners_remove (s : ws) : M unit :=
  fun w => match remove_first s (listeners w) with
           | Some l => (Val tt, set_listeners (fun _ => l) w)
           | None => (Exc (ValueError "list.remove(x): x not in list"), w)
           end.

Definition sockets_remove (s : ws) : M unit :=
  fun w => match remove_first s (sockets w) with
           | Some l => (Val tt, set_sockets (fun _ => l) w)
           | None => (Exc (ValueError "list.remove(x): x not in list"), w)
           end.

(** Lines 124-125 of [stop_all]. *)
Definition stop_all_begin : M unit :=
  log_debug ClosingAll ;;
  modify (set_attached false).

(** The body of the loop of [stop_all], for one socket. *)
Definition stop_all_close (s : ws) : M unit :=
  try_except (ws_close s 1012) (fun _ => ret tt).

(** [stop_all], run while no other task changes [sockets]. *)
Definition stop_all : M unit :=
  stop_all_begin ;;
  ss <- gets sockets ;;
  for_in ss stop_all_close.

(** One turn of the loop of [stop_all], up to the point where the
    coroutine waits for the close (see [send_turn]). *)
Definition stop_all_turn (i : nat) : M (option nat) :=
  fun w =>
    match sockets w !! i with
    | None => (Val None, w)
    | Some s => (stop_all_close s ;; ret (Some (S i))) w
    end.

(** ** The websocket handler *)

(** A message yielded by [async for msg in ws]; close messages end the
    iteration and are not yielded. *)
Inductive frame :=
| Text (data : string)
| NonText.                        (* binary, ping, pong, error *)

Definition is_authenticated (s : ws) (w : world) : bool :=
  bool_decide (s ∈ authenticated w).

(** [authenticated = b] in the run of the handler for [s]. *)
Definition assign_authenticated (s : ws) (b : bool) : M unit :=
  modify (set_authenticated (fun a => if b then a ∪ {[s]} else a ∖ {[s]})).

(** The nested coroutine, from the moment [asyncio.sleep(5)] returns. *)
Definition close_if_not_authenticated (s : ws) : M unit :=
  a <- gets (is_authenticated s) ;;
  if negb a
  then ws_close s 4000 ;;
       log_debug (TerminatedNoAuth s)
  else ret tt.

(** Lines 135-147: up to the start of the receive loop.  The timer task
    is created here and runs [close_if_not_authenticated] later. *)
Definition accept (s : ws) : M unit :=
  modify (set_sockets (fun l => l ++ [s])) ;;
  log_debug (Opened s) ;;
  assign_authenticated s false.

(** Lines 152-162: the body of the receive loop. *)
Definition on_message (s : ws) (msg : frame) : M unit :=
  match msg with
  | NonText => ret tt
  | Text data =>
      if is_valid_token data
      then ws_send_json s (AuthSuccess true) ;;
           history <- gets snapshot ;;
           ws_send_json s (History history) ;;
           a <- gets (is_authenticated s) ;;
           if negb a
           then log_debug (Authenticated s) ;;
                modify (set_listeners (fun l => l ++ [s])) ;;
                assign_authenticated s true
           else ret tt
      else a <- gets (is_authenticated s) ;;
           if negb a
           then ws_send_json s (AuthSuccess false)
           else ret tt
  end.

(** How the iteration over the websocket ends: the connection is closed,
    or receiving raises. *)
Inductive ending :=
| ConnectionClosed
| ReceiveFailed (e : exn).

Definition receive_end (e : ending) : M unit :=
  match e with
  | ConnectionClosed => ret tt
  | ReceiveFailed e => raise e
  end.

(** Lines 149-167: the receive loop inside its [try]. *)
Definition receive_loop (s : ws) (msgs : list frame) (e : ending) : M unit :=
  try_except (for_in msgs (on_message s) ;; receive_end e)
             (fun _ => try_except (ws_close s 1000) (fun _ => ret tt)).

(** Lines 168-171: after the loop. *)
Definition cleanup (s : ws) : M unit :=
  a <- gets (is_authenticated s) ;;
  (if a then listeners_remove s else ret tt) ;;
  log_debug (Closed s) ;;
  sockets_remove s.

(** [log_websocket], from after [ws.prepare], for a connection on which
    [msgs] arrive before it ends with [e]. *)
Definition log_websocket (s : ws) (msgs : list frame) (e : ending) : M unit :=
  accept s ;;
  receive_loop s msgs e ;;
  cleanup s.

End Module_log.

(** * Notions used in the statements *)

Section Notions.

Context {R : Runtime}.

Definition loop_open (w : world) : Prop :=
  exists l, loop w = Some l /\ loop_closed l = false.

(** [c] is the transformed event of [record]. *)
Definition transforms_to (record c : Dict.t) : Prop :=
  forall w, build_content record w = (Val c, w).

(** The value an attribute has in the event: a [datetime] by its ISO string,
    anything else as it is. *)
Definition iso_value (v : value) : value :=
  match v with
  | VDatetime d =>
      match astimezone_isoformat d with
      | inr s => VStr s
      | inl _ => v
      end
  | _ => v
  end.

(** [c] has been handed to the event loop and not run yet. *)
Definition scheduled (c : Dict.t) (w : world) : Prop :=
  exists l, loop w = Some l /\ c ∈ pending l.

(** The iterator of a [for] loop taken turn by turn: [fuel] turns at most;
    the result tells whether the iterator was exhausted. *)
Fixpoint run_turns (fuel : nat) (turn : nat -> M (option nat)) (i : nat)
  : M bool :=
  match fuel with
  | 0 => ret false
  | S fuel' =>
      next <- turn i ;;
      match next with
      | None => ret true
      | Some j => run_turns fuel' turn j
      end
  end.

End Notions.

(** Only the trace may differ between [w] and [w']. *)
Definition same_store (w w' : world) : Prop :=
  lines w' = lines w /\ listeners w' = listeners w /\ loop w' = loop w
  /\ sockets w' = sockets w /\ attached w' = attached w
  /\ authenticated w' = authenticated w.

(** Reading a trace: the websocket sends, in order; the exceptions they
    raised; the exceptions printed under a prefix; the closes. *)
Definition send_targets (cs : list call) : list (ws * json_msg) :=
  omap (fun c => match c with SendJson s m _ => Some (s, m) | _ => None end) cs.

Definition send_failures (cs : list call) : list exn :=
  omap (fun c => match c with SendJson _ _ (Some e) => Some e | _ => None end) cs.

Definition printed (prefix : string) (cs : list call) : list exn :=
  omap (fun c => match c with
                 | Print p e => if String.eqb p prefix then Some e else None
                 | _ => None
                 end) cs.

Definition close_targets (cs : list call) : list (ws * Z) :=
  omap (fun c => match c with CloseWs s code _ => Some (s, code) | _ => None end) cs.

(** A closed question about names is settled by evaluation. *)
Ltac by_evaluation := apply (bool_decide_unpack _); vm_compute; exact I.


(** ** A runtime and records to run the definitions on *)

Definition sample_runtime : Runtime := {|
  is_valid_token t := String.eqb t "secret";
  py_str v := match v with VStr s => s | _ => "1500.25" end;
  getMessage r := match Dict.get "msg" r with
                  | Some (VStr s) => inr s
                  | _ => inl (OtherError "TypeError" "not all arguments converted")
                  end;
  fromtimestamp v := match v with
                     | VFloat m _ => inr {| micros := m; tz := None |}
                     | _ => inl (OtherError "TypeError" "a float is required")
                     end;
  formatException _ := inr "Traceback (most recent call last): ...";
  astimezone_isoformat _ := inr "2022-01-01T00:00:00+00:00";
  send_json_failure _ _ _ := None;
  close_failure _ _ _ := None
|}.

(** The [__dict__] of a [LogRecord] as [logging] builds it. *)
Definition sample_record (msg : string) : Dict.t :=
  [ ("name", VStr "maubot.server"); ("msg", VStr msg); ("args", VTuple []);
    ("levelname", VStr "INFO"); ("levelno", VInt 20);
    ("pathname", VStr "/opt/maubot/server.py"); ("filename", VStr "server.py");
    ("module", VStr "server"); ("exc_info", VNone); ("exc_text", VNone);
    ("stack_info", VNone); ("lineno", VInt 42); ("funcName", VStr "start");
    ("created", VFloat 1641000000 0); ("msecs", VFloat 0 0);
    ("relativeCreated", VFloat 1500 0); ("thread", VInt 1);
    ("threadName", VStr "MainThread"); ("processName", VStr "MainProcess");
    ("process", VInt 7) ].

(** Its transformed event. *)
Definition sample_content (msg : string) : Dict.t :=
  [ ("name", VStr "maubot.server"); ("levelname", VStr "INFO");
    ("levelno", VInt 20); ("pathname", VStr "/opt/maubot/server.py");
    ("filename", VStr "server.py"); ("module", VStr "server");
    ("lineno", VInt 42); ("funcName", VStr "start"); ("id", VStr "1500.25");
    ("msg", VStr msg); ("time", VStr "2022-01-01T00:00:00+00:00") ].

(** The module after [init(loop)]. *)
Definition started : world :=
  {| lines := []; listeners := []; loop := Some new_event_loop; sockets := [];
     attached := true; authenticated := ∅; trace := [] |}.

(** Two connections are open, their handlers waiting for a message. *)
Definition two_connections : world :=
  {| lines := []; listeners := []; loop := Some new_event_loop;
     sockets := [1; 2]; attached := true; authenticated := ∅;
     trace := [LogDebug (Opened 1); LogDebug (Opened 2)] |}.

(** ** Notions used for the rest of the module *)

(** Everything but the history, the loop and the trace. *)
Definition same_connections (w w' : world) : Prop :=
  listeners w' = listeners w /\ sockets w' = sockets w
  /\ attached w' = attached w /\ authenticated w' = authenticated w.

(** The calls a handler makes for its websocket [s]: debug lines, the
    answers to tokens and the history on [s], and a plain close of [s]. *)
Definition handler_call (s : ws) (c : call) : Prop :=
  match c with
  | SendJson s' (AuthSuccess _) _ => s' = s
  | SendJson s' (History _) _ => s' = s
  | SendJson _ (Event _) _ => False
  | CloseWs s' code _ => s' = s /\ code = 1000%Z
  | Print _ _ => False
  | LogDebug _ => True
  end.

(** Where the handler for [s] stands while it runs, [ls] and [ss] being
    [handler.listeners] and [sockets] as they were when it was accepted. *)
Definition handler_state (s : ws) (ls ss : list ws) (w : world) : Prop :=
  sockets w = ss ++ [s]
  /\ (is_authenticated s w = false /\ listeners w = ls
      \/ is_authenticated s w = true /\ listeners w = ls ++ [s]).

(** A started module on which connection 1 has authenticated. *)
Definition subscribed : world :=
  {| lines := []; listeners := [1]; loop := Some new_event_loop;
     sockets := [1]; attached := true; authenticated := {[1]}; trace := [] |}.

(** From [w] to [w'] only calls satisfying [P] were made. *)
Definition only_calls (P : call -> Prop) (w w' : world) : Prop :=
  exists new, trace w' = trace w ++ new /\ Forall P new.

(** A record with a [datetime] among its extra attributes, and its event. *)
Definition dated_record : Dict.t :=
  sample_record "a" ++ [("deadline", VDatetime {| micros := 0; tz := None |})].

Definition dated_content : Dict.t :=
  [ ("name", VStr "maubot.server"); ("levelname", VStr "INFO");
    ("levelno", VInt 20); ("pathname", VStr "/opt/maubot/server.py");
    ("filename", VStr "server.py"); ("module", VStr "server");
    ("lineno", VInt 42); ("funcName", VStr "start");
    ("deadline", VStr "2022-01-01T00:00:00+00:00"); ("id", VStr "1500.25");
    ("msg", VStr "a"); ("time", VStr "2022-01-01T00:00:00+00:00") ].

Section Answers.

Context {R : Runtime}.

(** What the handler for [s] sends in answer to [msgs] once [s] has
    authenticated, the history being [h] and every send succeeding. *)
Definition replays (s : ws) (h : list Dict.t) (msgs : list frame) : list call :=
  flat_map (fun msg =>
              match msg with
              | Text t =>
                  if is_valid_token t
                  then [ SendJson s (AuthSuccess true) None;
                         SendJson s (History h) None ]
                  else []
              | NonText => []
              end) msgs.

(** What it sends in answer to frames none of which is a valid token,
    before [s] has authenticated. *)
Definition refusals (s : ws) (msgs : list frame) : list call :=
  flat_map (fun msg =>
              match msg with
              | Text _ => [SendJson s (AuthSuccess false) None]
              | NonText => []
              end) msgs.

(** The transformed event of a record, if [_emit] can build it. *)
Definition event_of (record : Dict.t) : option Dict.t :=
  match build_content record fresh with
  | (Val c, _) => Some c
  | (Exc _, _) => None
  end.

End Answers.

(** A runtime on which every websocket call raises. *)
Definition broken_pipe : exn :=
  OtherError "ConnectionResetError" "Cannot write to closing transport".

Definition failing_runtime : Runtime := {|
  is_valid_token t := String.eqb t "secret";
  py_str := @py_str sample_runtime;
  getMessage := @getMessage sample_runtime;
  fromtimestamp := @fromtimestamp sample_runtime;
  formatException := @formatException sample_runtime;
  astimezone_isoformat := @astimezone_isoformat sample_runtime;
  send_json_failure _ _ _ := Some broken_pipe;
  close_failure _ _ _ := Some broken_pipe
|}.

(** A record without the attributes of a [LogRecord]. *)
Definition bare_record : Dict.t := [("msg", VInt 3)].

(** * Standard output, and the clock of the event loop *)

(** ** A [print] that may raise *)

(** [print(prefix, e)] writes [str(e)] to [sys.stdout]: computing [str(e)]
    may raise, and so may the write (a closed or broken standard output, an
    encoding error).  Neither [except] clause of the module guards its
    [print], so what the call raises leaves the method.  [print] above is
    the call on a standard output that takes every line. *)
Class Stdout := {
  print_failure : world -> string -> exn -> option exn
}.

Module Live.

Section Live.

Context {R : Runtime} {Out : Stdout}.

(** The call is recorded in the trace whether or not it raises. *)
Definition print (prefix : string) (e : exn) : M unit :=
  fun w =>
    let w' := log_call (Print prefix e) w in
    match print_failure w prefix e with
    | None => (Val tt, w')
    | Some e' => (Exc e', w')
    end.

(** Lines 80-84. *)
Definition emit (record : Dict.t) : M unit :=
  try_except (_emit record) (fun e => print "Logging error:" e).

(** Lines 107-110: the body of the loop of [send], for one listener. *)
Definition send_to (record : Dict.t) (s : ws) : M unit :=
  try_except (ws_send_json s (Event record))
             (fun e => print "Log sending error:" e).

(** Lines 106-110, one turn of [for ws in self.listeners]: the iterator
    is an index into the list as it is when the turn starts, and the turn
    ends where the coroutine waits for the websocket. *)
Definition send_turn (record : Dict.t) (i : nat) : M (option nat) :=
  fun w =>
    match listeners w !! i with
    | None => (Val None, w)
    | Some s => (send_to record s ;; ret (Some (S i))) w
    end.

End Live.

End Live.

(** A runtime on which the transport of connection 1 is broken and every
    other websocket call succeeds. *)
Definition first_broken_runtime : Runtime := {|
  is_valid_token t := String.eqb t "secret";
  py_str := @py_str sample_runtime;
  getMessage := @getMessage sample_runtime;
  fromtimestamp := @fromtimestamp sample_runtime;
  formatException := @formatException sample_runtime;
  astimezone_isoformat := @astimezone_isoformat sample_runtime;
  send_json_failure _ s _ := if Nat.eqb s 1 then Some broken_pipe else None;
  close_failure _ _ _ := None
|}.

(** A standard output that takes every line, and one that has been
    closed. *)
Definition quiet_stdout : Stdout := {| print_failure _ _ _ := None |}.

Definition closed_stdout : Stdout :=
  {| print_failure _ _ _ := Some (ValueError "I/O operation on closed file") |}.

(** ** The authentication timer *)

(** A task of the event loop that is in [asyncio.sleep]: the time on the
    loop's clock, in seconds, at which the sleep ends, and the connection
    whose timer it is. *)
Record sleeper := { wakes_at : Q; socket_of : ws }.

(** The timer task of a connection accepted at time [now]: five seconds
    of sleep lie ahead of it. *)
Definition auth_timer (now : Q) (s : ws) : sleeper :=
  {| wakes_at := (now + 5)%Q; socket_of := s |}.

Section Timer.

Context {R : Runtime}.

(** Lines 135-147: the handler goes up to the creation of the timer task
    (line 147).  The coroutine of that task starts with
    [await asyncio.sleep(5)] (line 142); [now] is the time on the loop's
    clock at which it does, and the task joins the sleeping ones. *)
Definition accept_at (now : Q) (s : ws) (sleeping : list sleeper)
  : M (list sleeper) :=
  accept s ;;
  ret (sleeping ++ [auth_timer now s]).

(** The event loop at time [now]: every task whose sleep is over goes on
    with the rest of its coroutine, lines 143-145, in the order in which
    the tasks were created; the others sleep on.  An exception raised in a
    task ends that task and reaches no other. *)
Fixpoint wake (now : Q) (sleeping : list sleeper) : M (list sleeper) :=
  match sleeping with
  | [] => ret []
  | t :: rest =>
      if Qle_bool (wakes_at t) now
      then try_except (close_if_not_authenticated (socket_of t))
                      (fun _ => ret tt) ;;
           wake now rest
      else rest' <- wake now rest ;;
           ret (t :: rest')
  end.

End Timer.

(** ** More states and records to run the definitions on *)


(** The same, connection 1 having authenticated since. *)
Definition subscribed_late : world :=
  {| lines := [sample_content "a"; sample_content "b"]; listeners := [1];
     loop := Some {| loop_closed := false;
                     pending := [sample_content "a"; sample_content "b"] |};
     sockets := [1]; attached := true; authenticated := {[1]}; trace := [] |}.

(** The module after its event loop has been closed. *)
Definition loop_gone : world :=
  {| lines := []; listeners := [];
     loop := Some {| loop_closed := true; pending := [] |};
     sockets := []; attached := true; authenticated := ∅; trace := [] |}.

(** Connections 1 and 2 are open and have authenticated, in this order. *)
Definition two_subscribers : world :=
  {| lines := []; listeners := [1; 2]; loop := Some new_event_loop;
     sockets := [1; 2]; attached := true; authenticated := {[1; 2]};
     trace := [] |}.



(** * Results *)

Section Results.

Context {R : Runtime} {Out : Stdout}.

(** ** Sequencing *)

Lemma bind_val {A B} (m : M A) (k : A -> M B) w a w' :
  m w = (Val a, w') -> (x <- m ;; k x) w = k a w'.
Proof. intros H. unfold bind. rewrite H. reflexivity. Qed.

Lemma bind_assoc {A B C} (m : M A) (k : A -> M B) (h : B -> M C) w :
  (y <- (x <- m ;; k x) ;; h y) w = (x <- m ;; y <- k x ;; h y) w.
Proof. unfold bind. destruct (m w) as [[a|e] w1]; reflexivity. Qed.

Lemma for_in_app {A} (xs ys : list A) (body : A -> M unit) (w : world) :
  for_in (xs ++ ys) body w = (for_in xs body ;; for_in ys body) w.
Proof.
  revert w. induction xs as [|x xs IH]; intros w; simpl.
  - reflexivity.
  - rewrite bind_assoc. unfold bind at 1 2.
    destruct (body x w) as [[[]|e] w1]; [apply IH|reflexivity].
Qed.

(** ** The bounded history *)

Lemma deque_append_length {A} n (x : A) d :
  length d <= n -> length (deque_append n x d) <= n.
Proof.
  intros Hd. unfold deque_append.
  destruct (Nat.ltb_spec n (length (d ++ [x]))) as [Hlt|Hge]; [|exact Hge].
  rewrite length_app in Hlt. simpl in Hlt.
  destruct d as [|y d]; simpl in *; [lia|].
  rewrite length_app. simpl. lia.
Qed.

Lemma deque_append_drop {A} n (x : A) d :
  length d <= n ->
  deque_append n x d = drop (length (d ++ [x]) - n) (d ++ [x]).
Proof.
  intros Hd. unfold deque_append.
  rewrite length_app. simpl.
  destruct (Nat.ltb_spec n (length d + 1)) as [Hlt|Hge].
  - replace (length d + 1 - n) with 1 by lia.
    destruct d; reflexivity.
  - replace (length d + 1 - n) with 0 by lia. reflexivity.
Qed.

Lemma run_coroutine_threadsafe_open c w :
  loop_open w ->
  exists w', run_coroutine_threadsafe c w = (Val tt, w')
             /\ lines w' = lines w /\ loop_open w'
             /\ listeners w' = listeners w /\ trace w' = trace w.
Proof.
  intros (l & Hl & Hopen). unfold run_coroutine_threadsafe.
  rewrite Hl, Hopen. eexists. split; [reflexivity|].
  repeat split; try reflexivity. eexists. split; reflexivity.
Qed.

Lemma emit_recorded record c w :
  transforms_to record c -> loop_open w ->
  exists w', emit record w = (Val tt, w')
             /\ lines w' = deque_append MAX_LINES c (lines w)
             /\ loop_open w'.
Proof.
  intros Hc Hopen. unfold emit, try_except, _emit, bind.
  rewrite Hc.
  destruct (run_coroutine_threadsafe_open c w Hopen)
    as (w1 & -> & Hlines & Hopen1 & _).
  eexists. split; [reflexivity|]. simpl. rewrite Hlines. split; [reflexivity|].
  destruct Hopen1 as (l & Hl & Hl'). exists l. split; assumption.
Qed.

Lemma emit_all_recorded records events w :
  Forall2 transforms_to records events -> loop_open w ->
  length (lines w) <= MAX_LINES ->
  exists w', for_in records emit w = (Val tt, w')
             /\ lines w' = drop (length (lines w ++ events) - MAX_LINES)
                                (lines w ++ events)
             /\ loop_open w'.
Proof.
  intros HF. revert w. induction HF as [|r c rs cs Hrc HF IH]; intros w Hopen Hlen.
  - exists w. split; [reflexivity|]. rewrite app_nil_r.
    replace (length (lines w) - MAX_LINES) with 0 by lia. split; [reflexivity|assumption].
  - destruct (emit_recorded r c w Hrc Hopen) as (w1 & He & Hl1 & Hopen1).
    destruct (IH w1 Hopen1) as (w2 & Hrun & Hl2 & Hopen2).
    { rewrite Hl1. apply deque_append_length. exact Hlen. }
    exists w2. split.
    + simpl. unfold bind. rewrite He. exact Hrun.
    + split; [|assumption]. rewrite Hl2, Hl1.
      rewrite deque_append_drop by exact Hlen.
      generalize MAX_LINES. intros n.
      set (d := lines w ++ [c]).
      replace (lines w ++ c :: cs) with (d ++ cs) by (unfold d; rewrite <- app_assoc; reflexivity).
      rewrite !length_app, length_drop.
      destruct (Nat.le_gt_cases (length d) n) as [Hle|Hgt].
      * replace (length d - n) with 0 by lia. simpl. f_equal. lia.
      * rewrite <- (drop_app_le d cs (length d - n)) by lia.
        rewrite drop_drop. f_equal. lia.
Qed.

(** C1.  After N records have been recorded by a fresh collector, the
    history snapshot [list(handler.lines)] is the list of their transformed
    events without its first N - 2048 items (all of them when N <= 2048), in
    emission order, and so holds min(N, 2048) events. *)
Theorem snapshot_last_max_lines (records events : list Dict.t) (w : world) :
  lines w = [] -> loop_open w ->
  Forall2 transforms_to records events ->
  exists w', for_in records emit w = (Val tt, w')
             /\ snapshot w' = drop (length events - 2048) events
             /\ length (snapshot w') = Nat.min (length events) 2048.
Proof.
  intros Hfresh Hopen HF.
  destruct (emit_all_recorded records events w HF Hopen) as (w' & Hrun & Hl & _).
  { rewrite Hfresh. simpl. lia. }
  rewrite Hfresh in Hl. simpl in Hl.
  exists w'. split; [exact Hrun|]. unfold snapshot. rewrite Hl.
  change MAX_LINES with 2048. split; [reflexivity|].
  rewrite length_drop. lia.
Qed.

(** ** Dicts *)

Lemma get_set_eq k v d : Dict.get k (Dict.set k v d) = Some v.
Proof.
  induction d as [|[k' v'] d IH]; simpl.
  - rewrite String.eqb_refl. reflexivity.
  - destruct (String.eqb k' k) eqn:E; simpl; rewrite E; [reflexivity|exact IH].
Qed.

Lemma get_set_ne k k' v d : k' <> k -> Dict.get k (Dict.set k' v d) = Dict.get k d.
Proof.
  intros Hne. induction d as [|[k0 v0] d IH]; simpl.
  - apply String.eqb_neq in Hne. rewrite Hne. reflexivity.
  - destruct (String.eqb k0 k') eqn:E; simpl.
    + apply String.eqb_eq in E. subst k0.
      apply String.eqb_neq in Hne. rewrite Hne. reflexivity.
    + rewrite IH. reflexivity.
Qed.

Lemma get_comprehension keep k d :
  Dict.get k (Dict.comprehension keep d)
  = if keep k then Dict.get k d else None.
Proof.
  unfold Dict.comprehension.
  induction d as [|[k' v'] d IH]; simpl.
  - destruct (keep k); reflexivity.
  - destruct (String.eqb k' k) eqn:E.
    + apply String.eqb_eq in E. subst k'.
      destruct (keep k) eqn:Hk; simpl.
      * rewrite String.eqb_refl. reflexivity.
      * exact IH.
    + destruct (keep k'); simpl; [rewrite E|]; exact IH.
Qed.

Lemma get_None k d : k ∉ Dict.keys d -> Dict.get k d = None.
Proof.
  unfold Dict.keys. induction d as [|[k' v'] d IH]; csimpl; intros Hk.
  - reflexivity.
  - apply not_elem_of_cons in Hk as [Hne Hk].
    destruct (String.eqb k' k) eqn:E.
    + apply String.eqb_eq in E. congruence.
    + apply IH, Hk.
Qed.

Lemma keys_set k v d :
  Dict.keys (Dict.set k v d)
  = if Dict.mem k d then Dict.keys d else Dict.keys d ++ [k].
Proof.
  unfold Dict.keys, Dict.mem. induction d as [|[k' v'] d IH]; csimpl.
  - reflexivity.
  - destruct (String.eqb k' k) eqn:E; csimpl; [reflexivity|].
    rewrite IH. destruct (Dict.get k d); reflexivity.
Qed.

Lemma mem_keys k d : Dict.mem k d = true <-> k ∈ Dict.keys d.
Proof.
  unfold Dict.mem, Dict.keys. induction d as [|[k' v'] d IH]; csimpl.
  - split; [discriminate|]. intros H. inversion H.
  - rewrite elem_of_cons. destruct (String.eqb k' k) eqn:E.
    + apply String.eqb_eq in E. subst k'. tauto.
    + apply String.eqb_neq in E. rewrite IH. split; [tauto|].
      intros [->|H]; [congruence|exact H].
Qed.

Lemma NoDup_keys_set k v d :
  NoDup (Dict.keys d) -> NoDup (Dict.keys (Dict.set k v d)).
Proof.
  intros Hd. rewrite keys_set. destruct (Dict.mem k d) eqn:E; [exact Hd|].
  apply NoDup_app. split; [exact Hd|]. split.
  - intros x Hx Hk. apply list_elem_of_singleton in Hk. subst x.
    apply mem_keys in Hx. congruence.
  - apply NoDup_singleton.
Qed.

Lemma NoDup_keys_comprehension keep d :
  NoDup (Dict.keys d) -> NoDup (Dict.keys (Dict.comprehension keep d)).
Proof.
  unfold Dict.keys, Dict.comprehension.
  induction d as [|[k v] d IH]; csimpl; intros Hd; [exact Hd|].
  apply NoDup_cons in Hd as [Hk Hd].
  destruct (keep k); csimpl; [|apply IH, Hd].
  apply NoDup_cons. split; [|apply IH, Hd].
  intros Hin. apply Hk.
  apply list_elem_of_fmap in Hin as ([k' v'] & -> & Hin).
  apply list_elem_of_In, filter_In in Hin as [Hin _].
  apply list_elem_of_fmap. exists (k', v'). split; [reflexivity|].
  apply list_elem_of_In, Hin.
Qed.

(** ** The transformed event *)

Lemma isoformat_items_get items content c :
  NoDup (Dict.keys items) ->
  isoformat_items items content = inr c ->
  forall k,
    Dict.get k c = match Dict.get k items with
                   | Some (VDatetime d) => Some (iso_value (VDatetime d))
                   | _ => Dict.get k content
                   end.
Proof.
  revert content. induction items as [|[name v] rest IH]; simpl; intros content Hnd Hc k.
  - congruence.
  - apply NoDup_cons in Hnd as [Hname Hnd].
    assert (Hskip : isoformat_items rest content = inr c ->
                    ~ is_datetime v = true ->
                    Dict.get k c = match (if String.eqb name k then Some v else Dict.get k rest) with
                                   | Some (VDatetime d) => Some (iso_value (VDatetime d))
                                   | _ => Dict.get k content
                                   end).
    { intros Hc' Hv. rewrite (IH content Hnd Hc' k).
      destruct (String.eqb name k) eqn:E; [|reflexivity].
      apply String.eqb_eq in E. subst k. rewrite (get_None name rest Hname).
      destruct v; try reflexivity. exfalso. apply Hv. reflexivity. }
    destruct v; try (apply Hskip; [exact Hc|discriminate]).
    destruct (astimezone_isoformat d) as [e|s] eqn:Hiso; [discriminate|].
    rewrite (IH _ Hnd Hc k).
    destruct (String.eqb name k) eqn:E.
    + apply String.eqb_eq in E. subst k. rewrite (get_None name rest Hname).
      rewrite get_set_eq. simpl. rewrite Hiso. reflexivity.
    + apply String.eqb_neq in E. rewrite get_set_ne by exact E. reflexivity.
Qed.

(** The steps of [build_content] that succeeded when it returns. *)
Lemma build_content_inv record c w w' :
  build_content record w = (Val c, w') ->
  exists relativeCreated msg created time exc_info base,
    Dict.get "relativeCreated" record = Some relativeCreated
    /\ getMessage record = inr msg
    /\ Dict.get "created" record = Some created
    /\ fromtimestamp created = inr time
    /\ Dict.get "exc_info" record = Some exc_info
    /\ base = Dict.set "time" (VDatetime time)
                (Dict.set "msg" (VStr msg)
                   (Dict.set "id" (VStr (py_str relativeCreated))
                      (Dict.comprehension not_excluded record)))
    /\ (if truthy exc_info
        then exists text, formatException exc_info = inr text
                          /\ isoformat_items (Dict.set "exc_info" (VStr text) base)
                                             (Dict.set "exc_info" (VStr text) base) = inr c
        else isoformat_items base base = inr c).
Proof.
  unfold build_content, bind, getattr, lift, ret, raise. intros H.
  destruct (Dict.get "relativeCreated" record) as [rc|] eqn:Hrc; [|discriminate].
  destruct (getMessage record) as [?|msg] eqn:Hmsg; [discriminate|].
  destruct (Dict.get "created" record) as [cr|] eqn:Hcr; [|discriminate].
  destruct (fromtimestamp cr) as [?|t] eqn:Ht; [discriminate|].
  destruct (Dict.get "exc_info" record) as [ei|] eqn:Hei; [|discriminate].
  exists rc, msg, cr, t, ei. eexists.
  do 6 (split; [reflexivity || eassumption|]).
  destruct (truthy ei); cbv iota beta in H |- *.
  - destruct (formatException ei) as [?|text] eqn:Htext; [discriminate|].
    exists text. split; [reflexivity|].
    destruct (isoformat_items _ _); [discriminate|congruence].
  - destruct (isoformat_items _ _); [discriminate|congruence].
Qed.

Lemma isoformat_items_iso content c :
  NoDup (Dict.keys content) ->
  isoformat_items content content = inr c ->
  forall k, Dict.get k c = iso_value <$> Dict.get k content.
Proof.
  intros Hnd Hc k. rewrite (isoformat_items_get content content c Hnd Hc k).
  destruct (Dict.get k content) as [v|]; [|reflexivity].
  destruct v; reflexivity.
Qed.




Lemma not_excluded_true name : not_excluded name = true <-> name ∉ EXCLUDE_ATTRS.
Proof. unfold not_excluded. rewrite bool_decide_eq_true. reflexivity. Qed.

(** The event, key by key: the four keys set by [_emit], and the
    attributes of the record that are not excluded. *)
Lemma build_content_get record c w w' :
  NoDup (Dict.keys record) ->
  build_content record w = (Val c, w') ->
  forall name,
    Dict.get name c
    = if String.eqb name "exc_info"
      then match Dict.get "exc_info" record with
           | Some v => if truthy v
                       then match formatException v with
                            | inr text => Some (VStr text)
                            | inl _ => None
                            end
                       else None
           | None => None
           end
      else if String.eqb name "time"
      then match Dict.get "created" record with
           | Some v => match fromtimestamp v with
                       | inr t => Some (iso_value (VDatetime t))
                       | inl _ => None
                       end
           | None => None
           end
      else if String.eqb name "msg"
      then match getMessage record with
           | inr m => Some (VStr m)
           | inl _ => None
           end
      else if String.eqb name "id"
      then match Dict.get "relativeCreated" record with
           | Some v => Some (VStr (py_str v))
           | None => None
           end
      else if not_excluded name
      then iso_value <$> Dict.get name record
      else None.
Proof.
  intros Hnd H name.
  destruct (build_content_inv record c w w' H)
    as (rc & msg & cr & t & ei & base & Hrc & Hmsg & Hcr & Ht & Hei & Hbase & Hiso).
  rewrite Hrc, Hmsg, Hcr, Ht, Hei.
  assert (Hndb : NoDup (Dict.keys base)).
  { subst base. do 3 apply NoDup_keys_set. apply NoDup_keys_comprehension, Hnd. }
  assert (Hexc : "exc_info" ∈ EXCLUDE_ATTRS) by by_evaluation.
  assert (Hgetb : forall k, Dict.get k base
            = if String.eqb k "time" then Some (VDatetime t)
              else if String.eqb k "msg" then Some (VStr msg)
              else if String.eqb k "id" then Some (VStr (py_str rc))
              else if not_excluded k then Dict.get k record else None).
  { intros k. subst base.
    destruct (String.eqb_spec k "time") as [->|Hk1]; [apply get_set_eq|].
    rewrite get_set_ne by congruence.
    destruct (String.eqb_spec k "msg") as [->|Hk2]; [apply get_set_eq|].
    rewrite get_set_ne by congruence.
    destruct (String.eqb_spec k "id") as [->|Hk3]; [apply get_set_eq|].
    rewrite get_set_ne by congruence.
    apply get_comprehension. }
  assert (Hbase_exc : Dict.get "exc_info" base = None).
  { rewrite Hgetb. simpl.
    destruct (not_excluded "exc_info") eqn:E; [|reflexivity].
    apply not_excluded_true in E. contradiction. }
  destruct (truthy ei).
  - destruct Hiso as (text & Htext & Hiso). rewrite Htext.
    rewrite (isoformat_items_iso _ c (NoDup_keys_set _ _ _ Hndb) Hiso name).
    destruct (String.eqb_spec name "exc_info") as [->|Hne].
    + rewrite get_set_eq. reflexivity.
    + rewrite get_set_ne by congruence. rewrite Hgetb.
      destruct (String.eqb name "time"); [reflexivity|].
      destruct (String.eqb name "msg"); [reflexivity|].
      destruct (String.eqb name "id"); [reflexivity|].
      destruct (not_excluded name); reflexivity.
  - rewrite (isoformat_items_iso _ c Hndb Hiso name).
    destruct (String.eqb_spec name "exc_info") as [->|Hne].
    + rewrite Hbase_exc. reflexivity.
    + rewrite Hgetb.
      destruct (String.eqb name "time"); [reflexivity|].
      destruct (String.eqb name "msg"); [reflexivity|].
      destruct (String.eqb name "id"); [reflexivity|].
      destruct (not_excluded name); reflexivity.
Qed.


(** ** [emit] and [_emit] *)

Lemma build_content_pure record o w w' :
  build_content record w = (o, w') -> w' = w.
Proof.
  unfold build_content, bind, getattr, lift, ret, raise. intros H.
  destruct (Dict.get "relativeCreated" record); [|congruence].
  destruct (getMessage record); [congruence|].
  destruct (Dict.get "created" record) as [cr|]; [|congruence].
  destruct (fromtimestamp cr); [congruence|].
  destruct (Dict.get "exc_info" record) as [ei|]; [|congruence].
  destruct (truthy ei); cbv iota beta in H.
  - destruct (formatException ei); [congruence|].
    destruct (isoformat_items _ _); congruence.
  - destruct (isoformat_items _ _); congruence.
Qed.

Lemma run_coroutine_threadsafe_raises c e w w' :
  run_coroutine_threadsafe c w = (Exc e, w') -> w' = w.
Proof.
  unfold run_coroutine_threadsafe.
  destruct (loop w) as [l|]; [destruct (loop_closed l)|]; congruence.
Qed.

Lemma run_coroutine_threadsafe_returns c w w' :
  run_coroutine_threadsafe c w = (Val tt, w') ->
  exists l, loop w = Some l /\ loop_closed l = false
            /\ w' = set_loop (Some {| loop_closed := false;
                                      pending := pending l ++ [c] |}) w.
Proof.
  unfold run_coroutine_threadsafe.
  destruct (loop w) as [l|]; [|discriminate].
  destruct (loop_closed l) eqn:E; [discriminate|].
  intros H. exists l. repeat split; congruence.
Qed.

(** C10.  If [_emit] raises, whichever step did, the state is the one
    before the call: the history is unchanged, and it still is after [emit]
    has printed the error. *)
Theorem emit_failure_keeps_lines (record : Dict.t) (e : exn) (w w' : world) :
  _emit record w = (Exc e, w') ->
  w' = w
  /\ snapshot w' = snapshot w
  /\ snapshot (emit record w).2 = snapshot w.
Proof.
  intros H.
  assert (Hw : w' = w).
  { unfold _emit, bind in H.
    destruct (build_content record w) as [[c|e1] w1] eqn:Hb.
    - apply build_content_pure in Hb. subst w1.
      destruct (run_coroutine_threadsafe c w) as [[[]|e2] w2] eqn:Hs.
      + unfold lines_append, modify in H. discriminate.
      + apply run_coroutine_threadsafe_raises in Hs. congruence.
    - apply build_content_pure in Hb. congruence. }
  subst w'. repeat split.
  unfold emit, try_except. rewrite H. reflexivity.
Qed.

Lemma emit_raise_state record e w w' :
  _emit record w = (Exc e, w') -> w' = w.
Proof.
  unfold _emit, bind. intros H.
  destruct (build_content record w) as [[c|e1] w1] eqn:Hb.
  - apply build_content_pure in Hb. subst w1.
    destruct (run_coroutine_threadsafe c w) as [[[]|e2] w2] eqn:Hs.
    + unfold lines_append, modify in H. discriminate.
    + apply run_coroutine_threadsafe_raises in Hs. congruence.
  - apply build_content_pure in Hb. congruence.
Qed.

(** C4 as the code has it.  An exception raised by [_emit], while the
    record is transformed or its delivery scheduled, never leaves [emit]
    itself: it is caught and printed behind "Logging error:", the state
    being the one before the call.  [emit] then returns normally if that
    [print] returns; what the [print] raises is not caught, and it is the
    only exception that can reach the producer. *)
Theorem emit_raises_only_from_print (record : Dict.t) (w : world) :
  (forall w1, _emit record w = (Val tt, w1) ->
     Live.emit record w = (Val tt, w1))
  /\ (forall e w1, _emit record w = (Exc e, w1) ->
        Live.emit record w
        = (match print_failure w "Logging error:" e with
           | None => Val tt
           | Some e' => Exc e'
           end,
           log_call (Print "Logging error:" e) w))
  /\ (forall e' w', Live.emit record w = (Exc e', w') ->
        exists e, _emit record w = (Exc e, w)
                  /\ print_failure w "Logging error:" e = Some e'
                  /\ w' = log_call (Print "Logging error:" e) w)
  /\ ((forall e, print_failure w "Logging error:" e = None) ->
        exists w', Live.emit record w = (Val tt, w')).
Proof.
  assert (Hexc : forall e w1, _emit record w = (Exc e, w1) ->
            Live.emit record w
            = (match print_failure w "Logging error:" e with
               | None => Val tt
               | Some e' => Exc e'
               end,
               log_call (Print "Logging error:" e) w)).
  { intros e w1 H. pose proof (emit_raise_state _ _ _ _ H). subst w1.
    unfold Live.emit, try_except, Live.print. rewrite H.
    destruct (print_failure w "Logging error:" e); reflexivity. }
  split; [|split; [exact Hexc|split]].
  - intros w1 H. unfold Live.emit, try_except. rewrite H. reflexivity.
  - intros e' w' H.
    destruct (_emit record w) as [[[]|e] w1] eqn:He.
    + unfold Live.emit, try_except in H. rewrite He in H. discriminate.
    + pose proof (emit_raise_state _ _ _ _ He). subst w1.
      rewrite (Hexc e w eq_refl) in H. exists e.
      destruct (print_failure w "Logging error:" e) as [e1|];
        [|discriminate].
      injection H as -> <-. repeat split.
  - intros Hquiet.
    destruct (_emit record w) as [[[]|e] w1] eqn:He.
    + exists w1. unfold Live.emit, try_except. rewrite He. reflexivity.
    + rewrite (Hexc e w1 eq_refl), Hquiet. eexists. reflexivity.
Qed.

(** C5 as the code has it.  The transformed event is handed to the event
    loop first and appended to the history after that.  When the scheduling
    raises, [handler.loop] being unset or the loop closed, [_emit] raises
    with the state as it was: the event is not appended.  When it returns,
    the event is queued on the loop behind what was queued before, and then
    becomes the newest item of the history. *)
Theorem emit_schedules_then_appends (record c : Dict.t) (w : world) :
  transforms_to record c ->
  match loop w with
  | None => _emit record w = (Exc (AttributeError "loop"), w)
  | Some l =>
      if loop_closed l
      then _emit record w = (Exc (RuntimeError "Event loop is closed"), w)
      else _emit record w
           = (Val tt,
              set_lines (deque_append MAX_LINES c)
                (set_loop (Some {| loop_closed := false;
                                   pending := pending l ++ [c] |}) w))
           /\ last (lines (_emit record w).2) = Some c
  end.
Proof.
  intros Hc. unfold _emit, bind. rewrite Hc. unfold run_coroutine_threadsafe.
  destruct (loop w) as [l|]; [|reflexivity].
  destruct (loop_closed l); [reflexivity|].
  split; [reflexivity|]. simpl. unfold deque_append.
  destruct (Nat.ltb_spec MAX_LINES (length (lines w ++ [c]))) as [Hlt|_].
  - destruct (lines w) as [|x xs]; simpl.
    + simpl in Hlt. unfold MAX_LINES in Hlt. lia.
    + apply last_snoc.
  - apply last_snoc.
Qed.

(** ** Fan-out *)

Lemma same_store_refl w : same_store w w.
Proof. repeat split. Qed.

Lemma same_store_trans w1 w2 w3 :
  same_store w1 w2 -> same_store w2 w3 -> same_store w1 w3.
Proof. unfold same_store. intuition congruence. Qed.

Lemma same_store_log_call c w : same_store w (log_call c w).
Proof. repeat split. Qed.

(** A listener is sent the record once; a failure is printed and the
    statement still completes. *)
Lemma send_to_returns record s w :
  exists w' new,
    send_to record s w = (Val tt, w')
    /\ trace w' = trace w ++ new
    /\ same_store w w'
    /\ send_targets new = [(s, Event record)]
    /\ printed "Log sending error:" new = send_failures new
    /\ close_targets new = [].
Proof.
  unfold send_to, try_except, ws_send_json, print, modify.
  destruct (send_json_failure w s (Event record)) as [e|] eqn:Hf.
  - eexists. exists [SendJson s (Event record) (Some e); Print "Log sending error:" e].
    split; [reflexivity|]. simpl. rewrite <- app_assoc.
    repeat split; reflexivity.
  - eexists. exists [SendJson s (Event record) None].
    split; [reflexivity|]. repeat split; reflexivity.
Qed.

Lemma fan_out record ls : forall w,
  exists w' new,
    for_in ls (send_to record) w = (Val tt, w')
    /\ trace w' = trace w ++ new
    /\ same_store w w'
    /\ send_targets new = (fun s => (s, Event record)) <$> ls
    /\ printed "Log sending error:" new = send_failures new
    /\ close_targets new = [].
Proof.
  induction ls as [|s ls IH]; intros w.
  - exists w, []. rewrite app_nil_r. repeat split; reflexivity.
  - destruct (send_to_returns record s w)
      as (w1 & new1 & Hrun1 & Htr1 & Hst1 & Hto1 & Hpr1 & Hcl1).
    destruct (IH w1) as (w2 & new2 & Hrun2 & Htr2 & Hst2 & Hto2 & Hpr2 & Hcl2).
    exists w2, (new1 ++ new2). split.
    { simpl. rewrite (bind_val _ _ _ _ _ Hrun1). exact Hrun2. }
    split; [rewrite Htr2, Htr1, app_assoc; reflexivity|].
    split; [eapply same_store_trans; eassumption|].
    unfold send_targets, printed, send_failures, close_targets in *.
    rewrite !omap_app, Hto1, Hto2, Hpr1, Hpr2, Hcl1, Hcl2.
    repeat split; reflexivity.
Qed.

(** ** Loops taken turn by turn *)

(** While nobody else touches the list, the turns of a loop whose body
    neither raises nor changes the list amount to the loop over the list as
    it was at the start. *)
Lemma run_turns_for_in (view : world -> list ws) (body : ws -> M unit)
    (turn : nat -> M (option nat)) :
  (forall i w, turn i w = match view w !! i with
                          | None => (Val None, w)
                          | Some s => (body s ;; ret (Some (S i))) w
                          end) ->
  (forall s w, exists w', body s w = (Val tt, w') /\ view w' = view w) ->
  forall n i w,
    length (view w) <= n + i ->
    exists w', for_in (drop i (view w)) body w = (Val tt, w')
               /\ run_turns (S n) turn i w = (Val true, w').
Proof.
  intros Hturn Hbody. induction n as [|n IH]; intros i w Hlen.
  - rewrite drop_ge by lia. exists w. split; [reflexivity|].
    simpl. unfold bind. rewrite Hturn.
    rewrite lookup_ge_None_2 by lia. reflexivity.
  - destruct (view w !! i) as [s|] eqn:Hi.
    + destruct (Hbody s w) as (w1 & Hb & Hview).
      destruct (IH (S i) w1) as (w2 & Hfor & Hrun); [rewrite Hview; lia|].
      exists w2. split.
      * rewrite (drop_S _ _ _ Hi). simpl. rewrite (bind_val _ _ _ _ _ Hb).
        rewrite <- Hview. exact Hfor.
      * change (run_turns (S (S n)) turn i w)
          with ((next <- turn i ;;
                 match next with
                 | None => ret true
                 | Some j => run_turns (S n) turn j
                 end) w).
        unfold bind at 1. rewrite Hturn, Hi.
        unfold bind at 1. rewrite Hb. exact Hrun.
    + apply lookup_ge_None in Hi. rewrite drop_ge by lia.
      exists w. split; [reflexivity|].
      simpl. unfold bind. rewrite Hturn.
      rewrite lookup_ge_None_2 by lia. reflexivity.
Qed.

Lemma send_by_turns record w :
  exists w', send record w = (Val tt, w')
             /\ run_turns (S (length (listeners w))) (send_turn record) 0 w
                = (Val true, w').
Proof.
  destruct (run_turns_for_in listeners (send_to record) (send_turn record))
    with (n := length (listeners w)) (i := 0) (w := w) as (w' & Hfor & Hrun).
  - intros i w0. reflexivity.
  - intros s w0. destruct (send_to_returns record s w0)
      as (w1 & new & Hr & _ & (_ & Hls & _) & _). eauto.
  - lia.
  - exists w'. split; [exact Hfor|exact Hrun].
Qed.

(** ** The fan-out on a standard output that may fail *)

Lemma run_turns_ext (t1 t2 : nat -> M (option nat)) :
  (forall i w, t1 i w = t2 i w) ->
  forall n i w, run_turns n t1 i w = run_turns n t2 i w.
Proof.
  intros Heq. induction n as [|n IH]; intros i w; [reflexivity|].
  simpl. unfold bind. rewrite Heq.
  destruct (t2 i w) as [[[j|]|e] w1]; [apply IH|reflexivity|reflexivity].
Qed.

Lemma live_send_to_quiet record s w :
  (forall w0 e, print_failure w0 "Log sending error:" e = None) ->
  Live.send_to record s w = send_to record s w.
Proof.
  intros Hquiet. unfold Live.send_to, send_to, try_except, Live.print, print, modify.
  destruct (ws_send_json s (Event record) w) as [[[]|e] w1]; [reflexivity|].
  rewrite Hquiet. reflexivity.
Qed.

Lemma live_send_turn_quiet record i w :
  (forall w0 e, print_failure w0 "Log sending error:" e = None) ->
  Live.send_turn record i w = send_turn record i w.
Proof.
  intros Hquiet. unfold Live.send_turn, send_turn, bind.
  destruct (listeners w !! i) as [s|]; [|reflexivity].
  rewrite (live_send_to_quiet record s w Hquiet). reflexivity.
Qed.

(** One turn of the fan-out: the send it makes, and what may differ
    afterwards. *)
Lemma live_send_turn_effect record i w :
  exists o w' new,
    Live.send_turn record i w = (o, w')
    /\ trace w' = trace w ++ new
    /\ same_store w w'
    /\ send_targets new = match listeners w !! i with
                          | Some s => [(s, Event record)]
                          | None => []
                          end
    /\ close_targets new = [].
Proof.
  unfold Live.send_turn, Live.send_to, try_except, ws_send_json, Live.print, bind.
  destruct (listeners w !! i) as [s|].
  - destruct (send_json_failure w s (Event record)) as [e|].
    + destruct (print_failure _ "Log sending error:" e) as [e'|];
        eexists; eexists;
        exists [SendJson s (Event record) (Some e); Print "Log sending error:" e];
        (split; [reflexivity|]); simpl; rewrite <- app_assoc;
        repeat split; reflexivity.
    + eexists. eexists. exists [SendJson s (Event record) None].
      split; [reflexivity|]. repeat split; reflexivity.
  - exists (Val None), w, []. rewrite app_nil_r. repeat split; reflexivity.
Qed.

(** C8 as the code has it.  In a turn of the fan-out the listener at the
    iterator's index is sent the event once; an exception raised by the send
    is caught and printed behind "Log sending error:", and the fan-out goes
    on with the next index if that [print] returns, while what the [print]
    raises ends the fan-out.  A fan-out that is left to itself, on a
    standard output that takes the error lines, completes whatever the sends
    do: each listener is sent the event once, in list order, also after the
    failure of an earlier send, and every exception raised by a send has
    been printed.  The broadcaster removes no listener and closes no
    websocket. *)
Theorem send_survives_failures (record : Dict.t) (w : world) :
  (forall i,
     match listeners w !! i with
     | None => Live.send_turn record i w = (Val None, w)
     | Some s =>
         match send_json_failure w s (Event record) with
         | None =>
             Live.send_turn record i w
             = (Val (Some (S i)), log_call (SendJson s (Event record) None) w)
         | Some e =>
             let w1 := log_call (SendJson s (Event record) (Some e)) w in
             Live.send_turn record i w
             = (match print_failure w1 "Log sending error:" e with
                | None => Val (Some (S i))
                | Some e' => Exc e'
                end,
                log_call (Print "Log sending error:" e) w1)
         end
     end)
  /\ (forall i o w', Live.send_turn record i w = (o, w') ->
        listeners w' = listeners w
        /\ close_targets (trace w') = close_targets (trace w))
  /\ ((forall w0 e, print_failure w0 "Log sending error:" e = None) ->
      exists w' new,
        run_turns (S (length (listeners w))) (Live.send_turn record) 0 w
        = (Val true, w')
        /\ trace w' = trace w ++ new
        /\ send_targets new = (fun s => (s, Event record)) <$> listeners w
        /\ printed "Log sending error:" new = send_failures new
        /\ listeners w' = listeners w
        /\ close_targets new = []).
Proof.
  split; [|split].
  - intros i. unfold Live.send_turn, Live.send_to, try_except, ws_send_json,
      Live.print, bind.
    destruct (listeners w !! i) as [s|]; [|reflexivity].
    destruct (send_json_failure w s (Event record)) as [e|]; [|reflexivity].
    cbv zeta.
    destruct (print_failure _ "Log sending error:" e); reflexivity.
  - intros i o w' Hturn.
    destruct (live_send_turn_effect record i w)
      as (o1 & w1 & new & Hrun & Htr & Hst & _ & Hcl).
    rewrite Hturn in Hrun. injection Hrun as <- <-.
    split; [apply Hst|].
    rewrite Htr. unfold close_targets in *. rewrite omap_app, Hcl.
    apply app_nil_r.
  - intros Hquiet.
    destruct (send_by_turns record w) as (w' & Hsend & Hrun).
    destruct (fan_out record (listeners w) w)
      as (w'' & new & Hfor & Htr & Hst & Hto & Hpr & Hcl).
    assert (w'' = w').
    { unfold send, gets, bind in Hsend. congruence. }
    subst w''. exists w', new. split.
    { rewrite (run_turns_ext (Live.send_turn record) (send_turn record));
        [exact Hrun|].
      intros i w0. apply live_send_turn_quiet, Hquiet. }
    split; [exact Htr|]. split; [exact Hto|]. split; [exact Hpr|].
    split; [apply Hst|exact Hcl].
Qed.

(** ** [stop_all] *)

Lemma stop_all_close_returns s w :
  exists w',
    stop_all_close s w = (Val tt, w')
    /\ trace w' = trace w ++ [CloseWs s 1012 (close_failure w s 1012)]
    /\ same_store w w'.
Proof.
  unfold stop_all_close, try_except, ws_close.
  destruct (close_failure w s 1012) eqn:Hf;
    eexists; (split; [reflexivity|]); repeat split; reflexivity.
Qed.

Lemma close_all ss : forall w,
  exists w' new,
    for_in ss stop_all_close w = (Val tt, w')
    /\ trace w' = trace w ++ new
    /\ same_store w w'
    /\ close_targets new = (fun s => (s, 1012%Z)) <$> ss
    /\ send_targets new = [].
Proof.
  induction ss as [|s ss IH]; intros w.
  - exists w, []. rewrite app_nil_r. repeat split; reflexivity.
  - destruct (stop_all_close_returns s w) as (w1 & Hrun1 & Htr1 & Hst1).
    destruct (IH w1) as (w2 & new2 & Hrun2 & Htr2 & Hst2 & Hcl2 & Hto2).
    exists w2, ([CloseWs s 1012 (close_failure w s 1012)] ++ new2). split.
    { simpl. rewrite (bind_val _ _ _ _ _ Hrun1). exact Hrun2. }
    split; [rewrite Htr2, Htr1, <- app_assoc; reflexivity|].
    split; [eapply same_store_trans; eassumption|].
    unfold close_targets, send_targets in *.
    rewrite !omap_app, Hcl2, Hto2. split; reflexivity.
Qed.

(** Left to itself, [stop_all] detaches the handler and closes every
    tracked socket with code 1012, whether or not a close raises. *)
Lemma stop_all_uninterrupted w :
  exists w' new,
    stop_all w = (Val tt, w')
    /\ trace w' = trace w ++ LogDebug ClosingAll :: new
    /\ attached w' = false
    /\ close_targets new = (fun s => (s, 1012%Z)) <$> sockets w.
Proof.
  unfold stop_all, stop_all_begin, log_debug, modify, gets, bind.
  destruct (close_all (sockets w) (set_attached false (log_call (LogDebug ClosingAll) w)))
    as (w' & new & Hrun & Htr & Hst & Hcl & _).
  exists w', new. simpl in *. split; [exact Hrun|].
  split; [rewrite Htr, <- app_assoc; reflexivity|].
  destruct Hst as (_ & _ & _ & _ & Hat & _). split; [exact Hat|exact Hcl].
Qed.

Lemma stop_all_by_turns w :
  exists w1 w',
    stop_all_begin w = (Val tt, w1)
    /\ stop_all w = (Val tt, w')
    /\ run_turns (S (length (sockets w1))) stop_all_turn 0 w1 = (Val true, w').
Proof.
  eexists. split with (x := (for_in (sockets w) stop_all_close
                               (set_attached false (log_call (LogDebug ClosingAll) w))).2).
  split; [reflexivity|].
  destruct (run_turns_for_in sockets stop_all_close stop_all_turn)
    with (n := length (sockets w)) (i := 0)
         (w := set_attached false (log_call (LogDebug ClosingAll) w))
    as (w' & Hfor & Hrun).
  - intros i w0. reflexivity.
  - intros s w0. destruct (stop_all_close_returns s w0) as (w1 & Hr & _ & Hst).
    exists w1. split; [exact Hr|apply Hst].
  - simpl. lia.
  - rewrite drop_0 in Hfor. simpl in Hfor, Hrun.
    unfold stop_all, stop_all_begin, log_debug, modify, gets, bind.
    simpl. rewrite Hfor. simpl. split; [reflexivity|exact Hrun].
Qed.

(** Once the handler is detached, a record of the producer changes
    nothing: it is neither stored nor scheduled. *)
Lemma detached_record_ignored record w :
  attached w = false -> callHandlers record w = (Val tt, w).
Proof. intros H. unfold callHandlers, gets, bind. rewrite H. reflexivity. Qed.

(** ** The websocket handler *)

Lemma is_authenticated_same_store s w w' :
  same_store w w' -> is_authenticated s w' = is_authenticated s w.
Proof. intros (_ & _ & _ & _ & _ & H). unfold is_authenticated. rewrite H. reflexivity. Qed.

Lemma ws_send_json_same_store s m w o w' :
  ws_send_json s m w = (o, w') -> same_store w w'.
Proof.
  unfold ws_send_json. destruct (send_json_failure w s m);
    intros [= <- <-]; apply same_store_log_call.
Qed.

Lemma ws_close_same_store s code w o w' :
  ws_close s code w = (o, w') -> same_store w w'.
Proof.
  unfold ws_close. destruct (close_failure w s code);
    intros [= <- <-]; apply same_store_log_call.
Qed.

(** A message that is not a valid token leaves the store of an
    unauthenticated connection as it is. *)
Lemma on_message_rejected s msg w :
  (forall t, msg = Text t -> is_valid_token t = false) ->
  is_authenticated s w = false ->
  exists o w', on_message s msg w = (o, w') /\ same_store w w'.
Proof.
  intros Hmsg Hauth. destruct msg as [t|]; simpl.
  - rewrite (Hmsg t eq_refl). unfold bind, gets. rewrite Hauth. simpl.
    destruct (ws_send_json s (AuthSuccess false) w) as [o w'] eqn:Hs.
    exists o, w'. split; [reflexivity|]. eapply ws_send_json_same_store, Hs.
  - exists (Val tt), w. split; [reflexivity|apply same_store_refl].
Qed.

Lemma for_in_rejected s msgs : forall w,
  (forall t, Text t ∈ msgs -> is_valid_token t = false) ->
  is_authenticated s w = false ->
  exists o w', for_in msgs (on_message s) w = (o, w') /\ same_store w w'.
Proof.
  induction msgs as [|msg msgs IH]; intros w Hmsgs Hauth.
  - exists (Val tt), w. split; [reflexivity|apply same_store_refl].
  - destruct (on_message_rejected s msg w) as (o & w1 & Hrun & Hst); [|exact Hauth|].
    { intros t ->. apply Hmsgs. left. }
    simpl. unfold bind at 1. rewrite Hrun. destruct o as [[]|e].
    + destruct (IH w1) as (o2 & w2 & Hrun2 & Hst2).
      { intros t Ht. apply Hmsgs. right. exact Ht. }
      { rewrite (is_authenticated_same_store s w w1 Hst). exact Hauth. }
      exists o2, w2. split; [exact Hrun2|eapply same_store_trans; eassumption].
    + exists (Exc e), w1. split; [reflexivity|exact Hst].
Qed.

Lemma receive_loop_returns s msgs e w :
  exists w', receive_loop s msgs e w = (Val tt, w').
Proof.
  unfold receive_loop, try_except.
  destruct ((for_in msgs (on_message s);; receive_end e) w) as [[[]|e1] w1].
  - eexists. reflexivity.
  - destruct (ws_close s 1000 w1) as [[[]|e2] w2]; eexists; reflexivity.
Qed.

Lemma receive_loop_rejected s msgs e w :
  (forall t, Text t ∈ msgs -> is_valid_token t = false) ->
  is_authenticated s w = false ->
  exists w', receive_loop s msgs e w = (Val tt, w') /\ same_store w w'.
Proof.
  intros Hmsgs Hauth.
  destruct (for_in_rejected s msgs w Hmsgs Hauth) as (o & w1 & Hrun & Hst).
  unfold receive_loop, try_except, bind. rewrite Hrun.
  assert (Hclose : exists w', (let (o0, w') := ws_close s 1000 w1 in
                               match o0 with
                               | Val a => (Val a, w')
                               | Exc _ => ret () w'
                               end) = (Val tt, w') /\ same_store w w').
  { destruct (ws_close s 1000 w1) as [[[]|e2] w2] eqn:Hc;
      eexists; (split; [reflexivity|]);
      eapply same_store_trans; eauto using ws_close_same_store. }
  destruct o as [[]|e1]; [|exact Hclose].
  destruct e as [|e0]; simpl; [|exact Hclose].
  exists w1. split; [reflexivity|exact Hst].
Qed.

(** ** The timer *)

Lemma wake_asleep now t w :
  (now < wakes_at t)%Q -> wake now [t] w = (Val [t], w).
Proof.
  intros Hlt. simpl.
  destruct (Qle_bool (wakes_at t) now) eqn:E; [|reflexivity].
  apply Qle_bool_iff in E. lra.
Qed.

Lemma wake_due now t w :
  (wakes_at t <= now)%Q ->
  wake now [t] w
  = (Val [], (try_except (close_if_not_authenticated (socket_of t))
                         (fun _ => ret tt) w).2).
Proof.
  intros Hle. apply Qle_bool_iff in Hle. simpl. rewrite Hle.
  unfold bind.
  destruct (try_except _ _ w) as [[[]|e] w1] eqn:E; [reflexivity|].
  exfalso. unfold try_except in E.
  destruct (close_if_not_authenticated (socket_of t) w) as [[[]|e1] w2];
    discriminate.
Qed.

Lemma timer_fires s w :
  is_authenticated s w = false ->
  exists w',
    try_except (close_if_not_authenticated s) (fun _ => ret tt) w = (Val tt, w')
    /\ trace w' = trace w
                  ++ CloseWs s 4000 (close_failure w s 4000)
                  :: match close_failure w s 4000 with
                     | None => [LogDebug (TerminatedNoAuth s)]
                     | Some _ => []
                     end.
Proof.
  intros Hauth.
  unfold try_except, close_if_not_authenticated, bind, gets, ws_close,
    log_debug, modify.
  rewrite Hauth. simpl.
  destruct (close_failure w s 4000); eexists;
    (split; [reflexivity|]); simpl; rewrite <- ?app_assoc; reflexivity.
Qed.

(** C3 as the code has it.  The timer task of a connection accepted at
    time t0 sleeps until t0 + 5: before that it does nothing.  When the loop
    wakes it, at any time from t0 + 5 on, it looks at the flag
    [authenticated] and at nothing else: with the flag set it does nothing;
    with the flag unset it calls [ws.close(code=4000)] once, and logs the
    termination if the close returns.  It acts once.  A connection that has
    sent no valid token has its flag unset and is not in
    [handler.listeners]: its timer closes it with 4000 when woken, and no
    turn of a fan-out sends to it. *)
Theorem timer_closes_unauthenticated
    (s : ws) (t0 : Q) (msgs : list frame) (record : Dict.t) (w : world) :
  (forall t, Text t ∈ msgs -> is_valid_token t = false) ->
  s ∉ listeners w ->
  (forall now w0, (now < t0 + 5)%Q ->
     wake now [auth_timer t0 s] w0 = (Val [auth_timer t0 s], w0))
  /\ (forall now w0, (t0 + 5 <= now)%Q -> is_authenticated s w0 = true ->
        wake now [auth_timer t0 s] w0 = (Val [], w0))
  /\ (forall now w0, (t0 + 5 <= now)%Q -> is_authenticated s w0 = false ->
        exists w1,
          wake now [auth_timer t0 s] w0 = (Val [], w1)
          /\ trace w1 = trace w0
                        ++ CloseWs s 4000 (close_failure w0 s 4000)
                        :: match close_failure w0 s 4000 with
                           | None => [LogDebug (TerminatedNoAuth s)]
                           | Some _ => []
                           end)
  /\ exists w1 o w2,
       accept_at t0 s [] w = (Val [auth_timer t0 s], w1)
       /\ for_in msgs (on_message s) w1 = (o, w2)
       /\ is_authenticated s w2 = false
       /\ (s ∉ listeners w2)
       /\ (forall now, (t0 + 5 <= now)%Q ->
             exists w3,
               wake now [auth_timer t0 s] w2 = (Val [], w3)
               /\ close_targets (trace w3)
                  = close_targets (trace w2) ++ [(s, 4000%Z)])
       /\ (forall i, exists o' w' new,
             Live.send_turn record i w2 = (o', w')
             /\ trace w' = trace w2 ++ new
             /\ s ∉ (send_targets new).*1).
Proof.
  intros Hmsgs Hout.
  assert (Hfires : forall now w0, (t0 + 5 <= now)%Q ->
            is_authenticated s w0 = false ->
            exists w1,
              wake now [auth_timer t0 s] w0 = (Val [], w1)
              /\ trace w1 = trace w0
                            ++ CloseWs s 4000 (close_failure w0 s 4000)
                            :: match close_failure w0 s 4000 with
                               | None => [LogDebug (TerminatedNoAuth s)]
                               | Some _ => []
                               end).
  { intros now w0 Hnow H0.
    rewrite (wake_due now (auth_timer t0 s) w0 Hnow). simpl.
    destruct (timer_fires s w0 H0) as (w1 & Hrun & Htr).
    exists w1. rewrite Hrun. split; [reflexivity|exact Htr]. }
  split; [|split; [|split; [exact Hfires|]]].
  - intros now w0 Hnow. apply wake_asleep. exact Hnow.
  - intros now w0 Hnow H0.
    rewrite (wake_due now (auth_timer t0 s) w0 Hnow). simpl.
    unfold try_except, close_if_not_authenticated, bind, gets.
    rewrite H0. reflexivity.
  - set (w1 := set_authenticated (fun a => a ∖ {[s]})
                 (log_call (LogDebug (Opened s))
                    (set_sockets (fun l => l ++ [s]) w))).
    assert (Hauth1 : is_authenticated s w1 = false).
    { unfold is_authenticated, w1. simpl. apply bool_decide_eq_false.
      rewrite elem_of_difference, elem_of_singleton. tauto. }
    destruct (for_in_rejected s msgs w1 Hmsgs Hauth1) as (o & w2 & Hrun & Hst).
    assert (Hauth2 : is_authenticated s w2 = false).
    { rewrite (is_authenticated_same_store s w1 w2 Hst). exact Hauth1. }
    assert (Hls : listeners w2 = listeners w) by apply Hst.
    exists w1, o, w2. split; [reflexivity|]. split; [exact Hrun|].
    split; [exact Hauth2|]. split; [rewrite Hls; exact Hout|]. split.
    + intros now Hnow. destruct (Hfires now w2 Hnow Hauth2) as (w3 & Hw & Htr).
      exists w3. split; [exact Hw|]. rewrite Htr.
      unfold close_targets. rewrite omap_app. f_equal.
      destruct (close_failure w2 s 4000); reflexivity.
    + intros i.
      destruct (live_send_turn_effect record i w2)
        as (o' & w' & new & Hturn & Htr & _ & Hto & _).
      exists o', w', new. split; [exact Hturn|]. split; [exact Htr|].
      rewrite Hto. destruct (listeners w2 !! i) as [x|] eqn:Hi.
      * simpl. intros Hin. apply list_elem_of_singleton in Hin. subst x.
        apply list_elem_of_lookup_2 in Hi. rewrite Hls in Hi. contradiction.
      * apply not_elem_of_nil.
Qed.


(** Once the flag is set the handler leaves [handler.listeners] alone,
    whatever arrives and whatever the sends do. *)
Lemma on_message_authenticated s msg w o w' :
  is_authenticated s w = true ->
  on_message s msg w = (o, w') -> same_store w w'.
Proof.
  intros Hauth. destruct msg as [t|]; simpl.
  - destruct (is_valid_token t).
    + unfold bind, gets.
      destruct (ws_send_json s (AuthSuccess true) w) as [[[]|e1] w1] eqn:H1.
      * pose proof (ws_send_json_same_store _ _ _ _ _ H1) as Hst1.
        destruct (ws_send_json s (History (snapshot w1)) w1) as [[[]|e2] w2] eqn:H2.
        -- pose proof (ws_send_json_same_store _ _ _ _ _ H2) as Hst2.
           rewrite (is_authenticated_same_store s w1 w2 Hst2),
                   (is_authenticated_same_store s w w1 Hst1), Hauth. simpl.
           intros [= <- <-]. eapply same_store_trans; eassumption.
        -- intros [= <- <-]. eapply same_store_trans;
             eauto using ws_send_json_same_store.
      * intros [= <- <-]. eapply ws_send_json_same_store, H1.
    + unfold bind, gets. rewrite Hauth. simpl.
      intros [= <- <-]. apply same_store_refl.
  - intros [= <- <-]. apply same_store_refl.
Qed.

Lemma for_in_authenticated s msgs : forall w o w',
  is_authenticated s w = true ->
  for_in msgs (on_message s) w = (o, w') -> same_store w w'.
Proof.
  induction msgs as [|msg msgs IH]; intros w o w' Hauth; simpl.
  - intros [= <- <-]. apply same_store_refl.
  - unfold bind. destruct (on_message s msg w) as [[[]|e] w1] eqn:H1.
    + pose proof (on_message_authenticated _ _ _ _ _ Hauth H1) as Hst1.
      intros H2. eapply same_store_trans; [exact Hst1|].
      eapply IH; [|exact H2].
      rewrite (is_authenticated_same_store s w w1 Hst1). exact Hauth.
    + intros [= <- <-]. eapply on_message_authenticated; eassumption.
Qed.


End Results.

(** * More on the collector *)

Section Collector.

Context {R : Runtime}.

(** What one call of [emit] does: either it prints an error and nothing
    else changes, or the event is queued on the open loop and appended to
    the history. *)
Lemma emit_effect record w :
  (exists e, emit record w = (Val tt, log_call (Print "Logging error:" e) w)
             /\ (~ loop_open w \/ forall c, ~ transforms_to record c))
  \/ (exists c l,
        transforms_to record c
        /\ loop w = Some l /\ loop_closed l = false
        /\ emit record w
           = (Val tt,
              set_lines (deque_append MAX_LINES c)
                (set_loop (Some {| loop_closed := false;
                                   pending := pending l ++ [c] |}) w))).
Proof.
  unfold emit, try_except, _emit, bind, print, modify.
  destruct (build_content record w) as [[c|e] w0] eqn:Hb;
    pose proof (build_content_pure _ _ _ _ Hb); subst w0.
  - assert (Hc : transforms_to record c).
    { intros w0. destruct (build_content record w0) as [o w1] eqn:Hb0.
      pose proof (build_content_pure _ _ _ _ Hb0). subst w1.
      revert Hb Hb0. unfold build_content, bind, getattr, lift, ret, raise.
      destruct (Dict.get "relativeCreated" record); [|congruence].
      destruct (getMessage record); [congruence|].
      destruct (Dict.get "created" record) as [cr|]; [|congruence].
      destruct (fromtimestamp cr); [congruence|].
      destruct (Dict.get "exc_info" record) as [ei|]; [|congruence].
      destruct (truthy ei); cbv iota beta.
      - destruct (formatException ei); [congruence|].
        destruct (isoformat_items _ _); congruence.
      - destruct (isoformat_items _ _); congruence. }
    unfold run_coroutine_threadsafe.
    destruct (loop w) as [l|] eqn:Hl.
    + destruct (loop_closed l) eqn:Hcl.
      * left. eexists. split; [reflexivity|]. left.
        intros (l' & Hl' & Hopen). congruence.
      * right. exists c, l. repeat split; assumption.
    + left. eexists. split; [reflexivity|]. left.
      intros (l' & Hl' & _). congruence.
  - left. exists e. split; [reflexivity|]. right.
    intros c Hc. rewrite Hc in Hb. discriminate.
Qed.

(** X3.  While [handler.loop] is unset or closed, a record is dropped: the
    only thing [emit] does is print one error. *)
Theorem emit_without_open_loop (record : Dict.t) (w : world) :
  ~ loop_open w ->
  exists e, emit record w = (Val tt, log_call (Print "Logging error:" e) w).
Proof.
  intros Hclosed. destruct (emit_effect record w) as [(e & He & _)|Hok].
  - exists e. exact He.
  - destruct Hok as (c & l & _ & Hl & Hopen & _). exfalso. apply Hclosed.
    exists l. split; assumption.
Qed.

Lemma emit_all_effect records : forall w,
  exists w' new,
    for_in records emit w = (Val tt, w')
    /\ trace w' = trace w ++ new
    /\ send_targets new = [] /\ close_targets new = []
    /\ same_connections w w'
    /\ (length (lines w) <= MAX_LINES -> length (lines w') <= MAX_LINES).
Proof.
  induction records as [|r rs IH]; intros w.
  - exists w, []. rewrite app_nil_r. repeat split; auto.
  - assert (H1 : exists w1 new1, emit r w = (Val tt, w1)
                   /\ trace w1 = trace w ++ new1
                   /\ send_targets new1 = [] /\ close_targets new1 = []
                   /\ same_connections w w1
                   /\ (length (lines w) <= MAX_LINES -> length (lines w1) <= MAX_LINES)).
    { destruct (emit_effect r w) as [(e & He & _)|(c & l & _ & _ & _ & He)].
      - eexists. exists [Print "Logging error:" e]. split; [exact He|].
        repeat split; auto.
      - eexists. exists []. split; [exact He|]. simpl. rewrite app_nil_r.
        repeat split; auto. apply deque_append_length. }
    destruct H1 as (w1 & new1 & He & Htr1 & Hs1 & Hc1 & Hk1 & Hb1).
    destruct (IH w1) as (w2 & new2 & Hrun & Htr2 & Hs2 & Hc2 & Hk2 & Hb2).
    exists w2, (new1 ++ new2). split.
    { simpl. rewrite (bind_val _ _ _ _ _ He). exact Hrun. }
    split; [rewrite Htr2, Htr1, app_assoc; reflexivity|].
    unfold send_targets, close_targets in *. rewrite !omap_app, Hs1, Hs2, Hc1, Hc2.
    repeat split; try (destruct Hk1 as (?&?&?&?), Hk2 as (?&?&?&?); congruence).
    auto.
Qed.

(** X4.  The history never holds more than 2048 events, whatever records
    are logged and whether or not they can be transformed or scheduled. *)
Theorem history_bounded (records : list Dict.t) (w : world) :
  length (lines w) <= 2048 ->
  exists w', for_in records emit w = (Val tt, w')
             /\ length (snapshot w') <= 2048.
Proof.
  intros Hlen. destruct (emit_all_effect records w)
    as (w' & new & Hrun & _ & _ & _ & _ & Hb).
  exists w'. split; [exact Hrun|]. apply Hb. exact Hlen.
Qed.

(** X5.  [emit] does no websocket I/O of its own and touches neither
    [handler.listeners] nor [sockets]: whatever is logged, the calls made
    are [print]s only; sending is left to the event loop. *)
Theorem emit_defers_delivery (records : list Dict.t) (w : world) :
  exists w' new,
    for_in records emit w = (Val tt, w')
    /\ trace w' = trace w ++ new
    /\ send_targets new = []
    /\ close_targets new = []
    /\ listeners w' = listeners w
    /\ sockets w' = sockets w.
Proof.
  destruct (emit_all_effect records w)
    as (w' & new & Hrun & Htr & Hs & Hc & (Hl & Hso & _) & _).
  exists w', new. repeat split; assumption.
Qed.

(** X6.  Every recorded event is handed to the event loop exactly once, in
    emission order, behind what was already queued, also when the history
    has started to drop old events. *)
Theorem emit_queues_in_order
    (records events : list Dict.t) (l : event_loop) (w : world) :
  loop w = Some l -> loop_closed l = false ->
  Forall2 transforms_to records events ->
  exists w',
    for_in records emit w = (Val tt, w')
    /\ loop w' = Some {| loop_closed := false; pending := pending l ++ events |}.
Proof.
  intros Hl Hopen HF. revert l w Hl Hopen.
  induction HF as [|r c rs cs Hrc HF IH]; intros l w Hl Hopen.
  - exists w. split; [reflexivity|]. rewrite app_nil_r, Hl.
    destruct l as [cl p]. simpl in Hopen. subst cl. reflexivity.
  - destruct (emit_effect r w) as [(e & _ & [Hno|Hno])|(c' & l' & Hc' & Hl' & _ & He)].
    + exfalso. apply Hno. exists l. split; assumption.
    + exfalso. exact (Hno c Hrc).
    + assert (c' = c).
      { specialize (Hrc w). specialize (Hc' w). congruence. }
      assert (l' = l) by congruence. subst c' l'.
      destruct (IH {| loop_closed := false; pending := pending l ++ [c] |}
                  (set_lines (deque_append MAX_LINES c)
                     (set_loop (Some {| loop_closed := false;
                                        pending := pending l ++ [c] |}) w))
                  eq_refl eq_refl) as (w2 & Hrun & Hloop).
      exists w2. split.
      * simpl. rewrite (bind_val _ _ _ _ _ He). exact Hrun.
      * rewrite Hloop. simpl. rewrite <- app_assoc. reflexivity.
Qed.

(** ** Records that cannot be transformed *)

Lemma build_content_any_world record w w0 :
  (build_content record w).1 = (build_content record w0).1.
Proof.
  unfold build_content, bind, getattr, lift, ret, raise.
  destruct (Dict.get "relativeCreated" record); [|reflexivity].
  destruct (getMessage record); [reflexivity|].
  destruct (Dict.get "created" record) as [cr|]; [|reflexivity].
  destruct (fromtimestamp cr); [reflexivity|].
  destruct (Dict.get "exc_info" record) as [ei|]; [|reflexivity].
  destruct (truthy ei); cbv iota beta.
  - destruct (formatException ei); [reflexivity|].
    destruct (isoformat_items _ _); reflexivity.
  - destruct (isoformat_items _ _); reflexivity.
Qed.

Lemma event_of_Some record c :
  event_of record = Some c <-> transforms_to record c.
Proof.
  unfold event_of. split.
  - intros H w. destruct (build_content record w) as [o w1] eqn:Hb.
    pose proof (build_content_pure _ _ _ _ Hb). subst w1.
    pose proof (build_content_any_world record w fresh) as Hany.
    rewrite Hb in Hany. simpl in Hany.
    destruct (build_content record fresh) as [[c0|e0] w0]; [|discriminate].
    simpl in Hany. congruence.
  - intros Hc. rewrite (Hc fresh). reflexivity.
Qed.

(** X18.  A record that cannot be transformed costs one printed error and
    nothing else: on an open loop, after any records, the history is what
    it was followed by the events of the records that could be transformed,
    in order and cut to its last 2048 items, and one error was printed for
    each of the others. *)
Theorem bad_records_are_skipped (records : list Dict.t) (w : world) :
  loop_open w ->
  length (lines w) <= 2048 ->
  exists w' new,
    for_in records emit w = (Val tt, w')
    /\ trace w' = trace w ++ new
    /\ snapshot w'
       = drop (length (lines w ++ omap event_of records) - 2048)
              (lines w ++ omap event_of records)
    /\ length (printed "Logging error:" new) + length (omap event_of records)
       = length records.
Proof.
  change 2048 with MAX_LINES. revert w.
  induction records as [|r rs IH]; intros w Hopen Hlen.
  - exists w, []. rewrite !app_nil_r. split; [reflexivity|]. split; [reflexivity|].
    split; [|reflexivity]. unfold snapshot.
    replace (length (lines w) - MAX_LINES) with 0 by lia. reflexivity.
  - destruct (emit_effect r w) as [(e & He & Hno)|(c & l & Hc & Hl & Hcl & He)].
    + assert (Hnone : event_of r = None).
      { destruct Hno as [Hno|Hno]; [contradiction|].
        destruct (event_of r) as [c|] eqn:E; [|reflexivity].
        exfalso. apply (Hno c), event_of_Some, E. }
      destruct (IH (log_call (Print "Logging error:" e) w) Hopen Hlen)
        as (w' & new & Hrun & Htr & Hsnap & Hpr).
      exists w', (Print "Logging error:" e :: new).
      split; [simpl; rewrite (bind_val _ _ _ _ _ He); exact Hrun|].
      split; [rewrite Htr; simpl; rewrite <- app_assoc; reflexivity|].
      cbn [omap list_omap]. rewrite Hnone.
      split; [exact Hsnap|].
      unfold printed in *. cbn [omap list_omap]. simpl String.eqb.
      cbn [length]. simpl. rewrite Hpr. reflexivity.
    + assert (Hsome : event_of r = Some c) by (apply event_of_Some, Hc).
      set (w1 := set_lines (deque_append MAX_LINES c)
                   (set_loop (Some {| loop_closed := false;
                                      pending := pending l ++ [c] |}) w)) in *.
      destruct (IH w1) as (w' & new & Hrun & Htr & Hsnap & Hpr).
      { eexists. split; reflexivity. }
      { apply deque_append_length, Hlen. }
      exists w', new.
      split; [simpl; rewrite (bind_val _ _ _ _ _ He); exact Hrun|].
      split; [rewrite Htr; reflexivity|].
      cbn [omap list_omap]. rewrite Hsome.
      split.
      * rewrite Hsnap. unfold w1. simpl lines.
        rewrite deque_append_drop by exact Hlen.
        generalize (omap event_of rs). generalize MAX_LINES. intros n cs.
        set (d := lines w ++ [c]).
        replace (lines w ++ c :: cs) with (d ++ cs)
          by (unfold d; rewrite <- app_assoc; reflexivity).
        rewrite !length_app, length_drop.
        destruct (Nat.le_gt_cases (length d) n) as [Hle|Hgt].
        -- replace (length d - n) with 0 by lia. simpl. f_equal. lia.
        -- rewrite <- (drop_app_le d cs (length d - n)) by lia.
           rewrite drop_drop. f_equal. lia.
      * simpl. rewrite <- Hpr. lia.
Qed.

(** X7.  After [init] with an open loop, a record that can be transformed
    is stored as the newest event of the history and queued on that loop,
    and the handler is attached to the root logger. *)
Theorem init_then_emit (l : event_loop) (record c : Dict.t) (w : world) :
  loop_closed l = false ->
  transforms_to record c ->
  exists w',
    (init l ;; emit record) w = (Val tt, w')
    /\ attached w' = true
    /\ lines w' = deque_append MAX_LINES c (lines w)
    /\ last (lines w') = Some c
    /\ loop w' = Some {| loop_closed := false; pending := pending l ++ [c] |}.
Proof.
  intros Hopen Hc.
  unfold init, modify, bind at 1 2. simpl.
  set (w0 := set_loop (Some l) (set_attached true w)).
  destruct (emit_effect record w0) as [(e & _ & [Hno|Hno])|(c' & l' & Hc' & Hl' & _ & He)].
  - exfalso. apply Hno. exists l. split; [reflexivity|exact Hopen].
  - exfalso. exact (Hno c Hc).
  - assert (c' = c).
    { specialize (Hc w). specialize (Hc' w). congruence. }
    assert (l' = l) by (unfold w0 in Hl'; simpl in Hl'; congruence). subst c' l'.
    eexists. split; [exact He|]. simpl.
    repeat split; try reflexivity.
    unfold deque_append.
    destruct (Nat.ltb_spec MAX_LINES (length (lines w ++ [c]))) as [Hlt|_].
    + destruct (lines w) as [|x xs]; simpl.
      * simpl in Hlt. unfold MAX_LINES in Hlt. lia.
      * apply last_snoc.
    + apply last_snoc.
Qed.

End Collector.

(** * More on the transformed event *)

Section Transform.

Context {R : Runtime}.

Lemma get_elem_of k v d : Dict.get k d = Some v -> (k, v) ∈ d.
Proof.
  induction d as [|[k' v'] d IH]; simpl; [discriminate|].
  destruct (String.eqb_spec k' k) as [->|_].
  - intros [= ->]. left.
  - intros H. right. apply IH, H.
Qed.

(** When the loop of lines 99-101 completes, every [datetime] it met could
    be converted. *)
Lemma isoformat_items_converted items : forall content c,
  isoformat_items items content = inr c ->
  forall name d, (name, VDatetime d) ∈ items ->
  exists s, astimezone_isoformat d = inr s.
Proof.
  induction items as [|[name0 v0] rest IH]; intros content c Hc name d Hin.
  - inversion Hin.
  - apply elem_of_cons in Hin as [[= <- <-]|Hin].
    + simpl in Hc. destruct (astimezone_isoformat d) as [e|s]; [discriminate|].
      exists s. reflexivity.
    + simpl in Hc.
      destruct v0 as [ |b|z|m e|s0|d0|items|repr]; try (eapply IH; eassumption).
      destruct (astimezone_isoformat d0); [discriminate|].
      eapply IH; eassumption.
Qed.

(** The dict on which the loop of lines 99-101 runs. *)
Lemma build_content_final record c w w' :
  NoDup (Dict.keys record) ->
  build_content record w = (Val c, w') ->
  exists content,
    NoDup (Dict.keys content)
    /\ isoformat_items content content = inr c.
Proof.
  intros Hnd H.
  destruct (build_content_inv record c w w' H)
    as (rc & msg & cr & t & ei & base & _ & _ & _ & _ & _ & Hbase & Hiso).
  assert (Hndb : NoDup (Dict.keys base)).
  { subst base. do 3 apply NoDup_keys_set. apply NoDup_keys_comprehension, Hnd. }
  destruct (truthy ei).
  - destruct Hiso as (text & _ & Hiso). eexists. split; [|exact Hiso].
    apply NoDup_keys_set, Hndb.
  - exists base. split; assumption.
Qed.

Lemma content_no_datetime record content w w' :
  NoDup (Dict.keys record) ->
  build_content record w = (Val content, w') ->
  forall name v, Dict.get name content = Some v -> is_datetime v = false.
Proof.
  intros Hnd Hc name v Hv.
  destruct (build_content_final record content w w' Hnd Hc)
    as (before & Hndb & Hiso).
  rewrite (isoformat_items_iso before content Hndb Hiso name) in Hv.
  destruct (Dict.get name before) as [v0|] eqn:Hv0; [|discriminate].
  injection Hv as <-.
  destruct v0 as [ |b|z|m e|s0|d|items|repr]; try reflexivity.
  destruct (isoformat_items_converted before before content Hiso name d
              (get_elem_of _ _ _ Hv0)) as (s & Hs).
  simpl. rewrite Hs. reflexivity.
Qed.

(** X2.  No value of the transformed event is a [datetime]: whatever
    attribute held one, the event holds a string in its place. *)
Theorem event_has_no_datetime (record content : Dict.t) :
  NoDup (Dict.keys record) ->
  transforms_to record content ->
  forall name v, Dict.get name content = Some v -> is_datetime v = false.
Proof.
  intros Hnd Hc. exact (content_no_datetime record content fresh fresh Hnd (Hc fresh)).
Qed.

(** X1.  The keys [id], [msg] and [time] of the event are always set by
    [_emit], whatever attributes of these names the record has: [id] is
    the string of [relativeCreated], [msg] the rendered message, [time] the
    ISO string of the creation time.  The key [exc_info] is there exactly
    when [record.exc_info] is true, and holds the formatted exception. *)
Theorem event_own_keys (record content : Dict.t) :
  NoDup (Dict.keys record) ->
  transforms_to record content ->
  exists relativeCreated msg created time iso exc_info,
    Dict.get "relativeCreated" record = Some relativeCreated
    /\ getMessage record = inr msg
    /\ Dict.get "created" record = Some created
    /\ fromtimestamp created = inr time
    /\ astimezone_isoformat time = inr iso
    /\ Dict.get "exc_info" record = Some exc_info
    /\ Dict.get "id" content = Some (VStr (py_str relativeCreated))
    /\ Dict.get "msg" content = Some (VStr msg)
    /\ Dict.get "time" content = Some (VStr iso)
    /\ (truthy exc_info = false -> Dict.get "exc_info" content = None)
    /\ (truthy exc_info = true ->
        exists text, formatException exc_info = inr text
                     /\ Dict.get "exc_info" content = Some (VStr text)).
Proof.
  intros Hnd Hc. specialize (Hc fresh).
  pose proof (build_content_get record content fresh fresh Hnd Hc) as Hget.
  destruct (build_content_inv record content fresh fresh Hc)
    as (rc & msg & cr & t & ei & base & Hrc & Hmsg & Hcr & Ht & Hei & _ & Hiso).
  assert (Htime : Dict.get "time" content = Some (iso_value (VDatetime t))).
  { rewrite Hget, Hcr, Ht. reflexivity. }
  pose proof (content_no_datetime record content fresh fresh Hnd Hc
                "time" _ Htime) as Hnodt.
  destruct (astimezone_isoformat t) as [e|iso] eqn:Hisot.
  { simpl in Hnodt. rewrite Hisot in Hnodt. discriminate. }
  exists rc, msg, cr, t, iso, ei.
  do 6 (split; [assumption || reflexivity|]).
  split; [rewrite Hget, Hrc; reflexivity|].
  split; [rewrite Hget, Hmsg; reflexivity|].
  split; [rewrite Htime; simpl; rewrite Hisot; reflexivity|].
  split.
  - intros Hf. rewrite Hget, Hei, Hf. reflexivity.
  - intros Htr. rewrite Htr in Hiso. destruct Hiso as (text & Htext & _).
    exists text. split; [exact Htext|]. rewrite Hget, Hei, Htr, Htext. reflexivity.
Qed.

End Transform.

(** * More on connections *)

Section Connections.

Context {R : Runtime} {Out : Stdout}.

Lemma remove_first_snoc s l : s ∉ l -> remove_first s (l ++ [s]) = Some l.
Proof.
  induction l as [|y l IH]; simpl; intros Hs.
  - rewrite Nat.eqb_refl. reflexivity.
  - apply not_elem_of_cons in Hs as [Hne Hs].
    destruct (Nat.eqb_spec y s) as [->|_]; [congruence|].
    rewrite (IH Hs). reflexivity.
Qed.

(** X8.  Once a connection has authenticated, frames that are not a valid
    token get no answer and change nothing. *)
Theorem authenticated_ignores_bad_tokens (s : ws) (msgs : list frame) (w : world) :
  is_authenticated s w = true ->
  (forall t, Text t ∈ msgs -> is_valid_token t = false) ->
  for_in msgs (on_message s) w = (Val tt, w).
Proof.
  intros Hauth. induction msgs as [|msg msgs IH]; intros Hbad; [reflexivity|].
  assert (H1 : on_message s msg w = (Val tt, w)).
  { destruct msg as [t|]; [|reflexivity]. simpl.
    rewrite (Hbad t) by left. unfold bind, gets. rewrite Hauth. reflexivity. }
  simpl. rewrite (bind_val _ _ _ _ _ H1). apply IH.
  intros t Ht. apply Hbad. right. exact Ht.
Qed.


(** X9.  On a connection that has authenticated and whose sends succeed,
    every valid token is answered like the first one, with
    [auth_success: true] and the buffer as it is, every other frame gets no
    answer, and the connection is not subscribed a second time. *)
Theorem authenticated_replays_history (s : ws) (msgs : list frame) (w : world) :
  is_authenticated s w = true ->
  (forall w0 m, send_json_failure w0 s m = None) ->
  exists w',
    for_in msgs (on_message s) w = (Val tt, w')
    /\ trace w' = trace w ++ replays s (lines w) msgs
    /\ same_store w w'.
Proof.
  intros Hauth Hsend. revert w Hauth.
  induction msgs as [|msg msgs IH]; intros w Hauth.
  - exists w. rewrite app_nil_r. repeat split; reflexivity.
  - assert (H1 : exists w1, on_message s msg w = (Val tt, w1)
                   /\ trace w1 = trace w ++ replays s (lines w) [msg]
                   /\ same_store w w1).
    { destruct msg as [t|]; simpl.
      - destruct (is_valid_token t) eqn:Hvalid.
        + unfold bind, gets, ws_send_json. rewrite !Hsend.
          replace (is_authenticated s _) with true by (symmetry; exact Hauth).
          eexists. split; [reflexivity|]. simpl. rewrite <- !app_assoc.
          repeat split; reflexivity.
        + unfold bind, gets. rewrite Hauth. exists w. simpl.
          rewrite app_nil_r. repeat split; reflexivity.
      - exists w. rewrite app_nil_r. repeat split; reflexivity. }
    destruct H1 as (w1 & Hm & Htr1 & Hst1).
    destruct (IH w1) as (w2 & Hrun & Htr2 & Hst2).
    { rewrite (is_authenticated_same_store s w w1 Hst1). exact Hauth. }
    exists w2. split; [simpl; rewrite (bind_val _ _ _ _ _ Hm); exact Hrun|].
    split; [|eapply same_store_trans; eassumption].
    rewrite Htr2, Htr1, <- app_assoc. f_equal.
    assert (Hsnap : lines w1 = lines w) by apply Hst1.
    rewrite Hsnap. unfold replays. simpl. rewrite app_nil_r. reflexivity.
Qed.

(** X16.  Before it has authenticated, a connection may try any number of
    tokens: every text frame that is not a valid token is answered with
    one [auth_success: false], other frames with nothing, and nothing else
    changes. *)
Theorem unauthenticated_may_retry (s : ws) (msgs : list frame) (w : world) :
  is_authenticated s w = false ->
  (forall t, Text t ∈ msgs -> is_valid_token t = false) ->
  (forall w0 m, send_json_failure w0 s m = None) ->
  exists w',
    for_in msgs (on_message s) w = (Val tt, w')
    /\ trace w' = trace w ++ refusals s msgs
    /\ same_store w w'.
Proof.
  intros Hauth Hbad Hsend. revert w Hauth.
  induction msgs as [|msg msgs IH]; intros w Hauth.
  - exists w. rewrite app_nil_r. repeat split; reflexivity.
  - assert (H1 : exists w1, on_message s msg w = (Val tt, w1)
                   /\ trace w1 = trace w ++ refusals s [msg]
                   /\ same_store w w1).
    { destruct msg as [t|]; simpl.
      - rewrite (Hbad t) by left. unfold bind, gets.
        rewrite Hauth. simpl. unfold ws_send_json. rewrite Hsend.
        eexists. split; [reflexivity|]. repeat split; reflexivity.
      - exists w. rewrite app_nil_r. repeat split; reflexivity. }
    destruct H1 as (w1 & Hm & Htr1 & Hst1).
    destruct (IH (fun t Ht => Hbad t (list_elem_of_further _ _ _ Ht)) w1)
      as (w2 & Hrun & Htr2 & Hst2).
    { rewrite (is_authenticated_same_store s w w1 Hst1). exact Hauth. }
    exists w2. split; [simpl; rewrite (bind_val _ _ _ _ _ Hm); exact Hrun|].
    split; [|eapply same_store_trans; eassumption].
    rewrite Htr2, Htr1, <- app_assoc. f_equal.
    unfold refusals. simpl. rewrite app_nil_r. reflexivity.
Qed.

(** X17.  The first exception in the receive loop ends it: the handler
    calls [ws.close()] once, ignores what that close does, and answers none
    of the frames that follow. *)
Theorem failure_ends_receive_loop
    (s : ws) (before after : list frame) (msg : frame) (e : ending)
    (x : exn) (w w0 w1 : world) :
  for_in before (on_message s) w = (Val tt, w0) ->
  on_message s msg w0 = (Exc x, w1) ->
  receive_loop s (before ++ msg :: after) e w
  = (Val tt, log_call (CloseWs s 1000 (close_failure w1 s 1000)) w1).
Proof.
  intros Hbefore Hmsg. unfold receive_loop, try_except.
  assert (Hrun : (for_in (before ++ msg :: after) (on_message s) ;; receive_end e) w
                 = (Exc x, w1)).
  { unfold bind at 1. rewrite for_in_app, (bind_val _ _ _ _ _ Hbefore).
    simpl. unfold bind at 1. rewrite Hmsg. reflexivity. }
  rewrite Hrun. unfold ws_close.
  destruct (close_failure w1 s 1000); reflexivity.
Qed.

(** ** The run of a handler *)

Lemma handler_state_same_store s ls ss w w' :
  same_store w w' -> handler_state s ls ss w -> handler_state s ls ss w'.
Proof.
  intros Hst (Hso & Hcase). pose proof (is_authenticated_same_store s w w' Hst) as Ha.
  destruct Hst as (_ & Hl & _ & Hso' & _). unfold handler_state.
  rewrite Ha, Hl, Hso'. split; assumption.
Qed.

Lemma on_message_handler_state s ls ss msg w o w' :
  handler_state s ls ss w ->
  on_message s msg w = (o, w') ->
  handler_state s ls ss w' /\ lines w' = lines w /\ loop w' = loop w
  /\ attached w' = attached w.
Proof.
  intros Hstate Hrun.
  assert (Hsame : same_store w w' ->
            handler_state s ls ss w' /\ lines w' = lines w /\ loop w' = loop w
            /\ attached w' = attached w).
  { intros Hst. split; [eapply handler_state_same_store; eassumption|].
    destruct Hst as (? & _ & ? & _ & ? & _). auto. }
  destruct (is_authenticated s w) eqn:Hauth.
  { apply Hsame. eapply on_message_authenticated; eassumption. }
  destruct msg as [t|]; [|injection Hrun as _ <-; apply Hsame, same_store_refl].
  simpl in Hrun. destruct (is_valid_token t) eqn:Hvalid.
  - unfold bind, gets in Hrun.
    destruct (ws_send_json s (AuthSuccess true) w) as [[[]|e1] w1] eqn:H1.
    + pose proof (ws_send_json_same_store _ _ _ _ _ H1) as Hst1.
      destruct (ws_send_json s (History (snapshot w1)) w1) as [[[]|e2] w2] eqn:H2.
      * pose proof (ws_send_json_same_store _ _ _ _ _ H2) as Hst2.
        pose proof (same_store_trans _ _ _ Hst1 Hst2) as Hst.
        rewrite (is_authenticated_same_store s w w2 Hst), Hauth in Hrun.
        simpl in Hrun. unfold log_debug, assign_authenticated, modify in Hrun.
        injection Hrun as _ <-.
        destruct Hstate as (Hso & [(_ & Hl)|(Htrue & _)]); [|congruence].
        destruct Hst as (Hli & Hl2 & Hlo & Hso2 & Hat & _).
        unfold handler_state. simpl. rewrite Hso2, Hl2, Hl, Hli, Hlo, Hat.
        repeat split; try assumption. right. split; [|reflexivity].
        unfold is_authenticated. simpl. apply bool_decide_eq_true.
        apply elem_of_union. right. apply elem_of_singleton. reflexivity.
      * injection Hrun as _ <-. apply Hsame.
        eapply same_store_trans; eauto using ws_send_json_same_store.
    + injection Hrun as _ <-. apply Hsame. exact (ws_send_json_same_store _ _ _ _ _ H1).
  - unfold bind, gets in Hrun. rewrite Hauth in Hrun. simpl in Hrun.
    apply Hsame. exact (ws_send_json_same_store _ _ _ _ _ Hrun).
Qed.

Lemma for_in_handler_state s ls ss msgs : forall w o w',
  handler_state s ls ss w ->
  for_in msgs (on_message s) w = (o, w') ->
  handler_state s ls ss w' /\ lines w' = lines w /\ loop w' = loop w
  /\ attached w' = attached w.
Proof.
  induction msgs as [|msg msgs IH]; intros w o w' Hstate; simpl.
  - intros [= <- <-]. split; [assumption|repeat split].
  - unfold bind. destruct (on_message s msg w) as [[[]|e] w1] eqn:H1;
      destruct (on_message_handler_state _ _ _ _ _ _ _ Hstate H1)
        as (Hs1 & Hli1 & Hlo1 & Hat1).
    + intros H2. destruct (IH _ _ _ Hs1 H2) as (Hs2 & Hli2 & Hlo2 & Hat2).
      split; [assumption|]. repeat split; congruence.
    + intros [= <- <-]. split; [assumption|]. repeat split; assumption.
Qed.

Lemma receive_loop_handler_state s ls ss msgs e w :
  handler_state s ls ss w ->
  exists w', receive_loop s msgs e w = (Val tt, w')
             /\ handler_state s ls ss w' /\ lines w' = lines w
             /\ loop w' = loop w /\ attached w' = attached w.
Proof.
  intros Hstate. unfold receive_loop, try_except, bind.
  destruct (for_in msgs (on_message s) w) as [o w1] eqn:Hfor.
  destruct (for_in_handler_state _ _ _ _ _ _ _ Hstate Hfor) as (Hs1 & Hli1 & Hlo1 & Hat1).
  assert (Hclose : exists w', (let (o0, w') := ws_close s 1000 w1 in
                               match o0 with
                               | Val a => (Val a, w')
                               | Exc _ => ret () w'
                               end) = (Val tt, w')
                              /\ handler_state s ls ss w' /\ lines w' = lines w
                              /\ loop w' = loop w /\ attached w' = attached w).
  { destruct (ws_close s 1000 w1) as [[[]|e2] w2] eqn:Hc;
      pose proof (ws_close_same_store _ _ _ _ _ Hc) as Hst2;
      exists w2; (split; [reflexivity|]);
      (split; [eapply handler_state_same_store; eassumption|]);
      destruct Hst2 as (? & _ & ? & _ & ? & _); repeat split; congruence. }
  destruct o as [[]|e1]; [|exact Hclose].
  destruct e as [|e0]; simpl; [|exact Hclose].
  exists w1. split; [reflexivity|]. split; [assumption|].
  repeat split; assumption.
Qed.

(** X10.  Whatever arrives on a connection, whatever its sends and its
    close do, and whether the iteration ends with the connection closed or
    with an exception (an instance of [Exception]; a cancellation is none),
    the handler returns normally and leaves [sockets] and
    [handler.listeners] as they were when the connection was accepted. *)
Theorem handler_cleans_up
    (s : ws) (msgs : list frame) (e : ending) (w : world) :
  s ∉ sockets w ->
  s ∉ listeners w ->
  exists w',
    log_websocket s msgs e w = (Val tt, w')
    /\ sockets w' = sockets w
    /\ listeners w' = listeners w.
Proof.
  intros Hso Hli. unfold log_websocket.
  set (w0 := set_authenticated (fun a => a ∖ {[s]})
               (log_call (LogDebug (Opened s))
                  (set_sockets (fun l => l ++ [s]) w))).
  assert (Hacc : accept s w = (Val tt, w0)) by reflexivity.
  assert (Hstate0 : handler_state s (listeners w) (sockets w) w0).
  { split; [reflexivity|]. left. split; [|reflexivity].
    unfold is_authenticated, w0. simpl. apply bool_decide_eq_false.
    rewrite elem_of_difference, elem_of_singleton. tauto. }
  destruct (receive_loop_handler_state s _ _ msgs e w0 Hstate0)
    as (w1 & Hrun & (Hso1 & Hcase) & Hli1 & Hlo1 & _).
  rewrite (bind_val _ _ _ _ _ Hacc), (bind_val _ _ _ _ _ Hrun).
  unfold cleanup, bind, gets, log_debug, modify, listeners_remove, sockets_remove.
  destruct Hcase as [(Ha & Hl)|(Ha & Hl)]; rewrite Ha; simpl.
  - rewrite Hso1, (remove_first_snoc s (sockets w) Hso).
    eexists. split; [reflexivity|]. simpl. repeat split; assumption.
  - rewrite Hl, (remove_first_snoc s (listeners w) Hli). simpl.
    rewrite Hso1, (remove_first_snoc s (sockets w) Hso).
    eexists. split; [reflexivity|]. simpl. repeat split; assumption.
Qed.

(** ** The calls of a handler *)

Lemma only_calls_refl P w : only_calls P w w.
Proof. exists []. rewrite app_nil_r. split; [reflexivity|constructor]. Qed.

Lemma only_calls_trans P w1 w2 w3 :
  only_calls P w1 w2 -> only_calls P w2 w3 -> only_calls P w1 w3.
Proof.
  intros (n1 & H1 & F1) (n2 & H2 & F2). exists (n1 ++ n2).
  split; [rewrite H2, H1, app_assoc; reflexivity|].
  apply Forall_app. split; assumption.
Qed.

Lemma only_calls_log P c w : P c -> only_calls P w (log_call c w).
Proof. intros Hc. exists [c]. split; [reflexivity|]. repeat constructor. exact Hc. Qed.

Lemma ws_send_json_calls s m w o w' :
  ws_send_json s m w = (o, w') ->
  forall P, (forall f, P (SendJson s m f)) -> only_calls P w w'.
Proof.
  unfold ws_send_json. intros H P HP.
  destruct (send_json_failure w s m); injection H as _ <-; apply only_calls_log, HP.
Qed.

Lemma ws_close_calls s code w o w' :
  ws_close s code w = (o, w') ->
  forall P, (forall f, P (CloseWs s code f)) -> only_calls P w w'.
Proof.
  unfold ws_close. intros H P HP.
  destruct (close_failure w s code); injection H as _ <-; apply only_calls_log, HP.
Qed.

Lemma on_message_calls s msg w o w' :
  on_message s msg w = (o, w') -> only_calls (handler_call s) w w'.
Proof.
  destruct msg as [t|]; simpl; [|intros [= _ <-]; apply only_calls_refl].
  destruct (is_valid_token t); unfold bind, gets.
  - destruct (ws_send_json s (AuthSuccess true) w) as [[[]|e1] w1] eqn:H1;
      pose proof (ws_send_json_calls _ _ _ _ _ H1 (handler_call s)
                    (fun _ => eq_refl)) as C1.
    + destruct (ws_send_json s (History (snapshot w1)) w1) as [[[]|e2] w2] eqn:H2;
        pose proof (ws_send_json_calls _ _ _ _ _ H2 (handler_call s)
                      (fun _ => eq_refl)) as C2.
      * destruct (is_authenticated s w2); simpl;
          unfold log_debug, assign_authenticated, modify; intros [= _ <-].
        -- eapply only_calls_trans; eassumption.
        -- eapply only_calls_trans; [eassumption|].
           eapply only_calls_trans; [eassumption|].
           exists [LogDebug (Authenticated s)]. split; [reflexivity|].
           repeat constructor.
      * intros [= _ <-]. eapply only_calls_trans; eassumption.
    + intros [= _ <-]. exact C1.
  - destruct (is_authenticated s w); simpl.
    + intros [= _ <-]. apply only_calls_refl.
    + intros H. exact (ws_send_json_calls _ _ _ _ _ H (handler_call s)
                         (fun _ => eq_refl)).
Qed.

Lemma for_in_calls s msgs : forall w o w',
  for_in msgs (on_message s) w = (o, w') -> only_calls (handler_call s) w w'.
Proof.
  induction msgs as [|msg msgs IH]; intros w o w'; simpl.
  - intros [= _ <-]. apply only_calls_refl.
  - unfold bind. destruct (on_message s msg w) as [[[]|e] w1] eqn:H1;
      pose proof (on_message_calls _ _ _ _ _ H1) as C1.
    + intros H2. eapply only_calls_trans; [exact C1|eapply IH, H2].
    + intros [= _ <-]. exact C1.
Qed.

(** X11.  A handler only ever writes to its own websocket: besides debug
    lines, the calls it makes are [auth_success] and [history] messages on
    its websocket and, after a failure, one close of it with the default
    code; it sends no log event, closes nothing with 4000 or 1012 and prints
    nothing. *)
Theorem handler_calls_own_socket
    (s : ws) (msgs : list frame) (e : ending) (w : world) :
  exists o w' new,
    log_websocket s msgs e w = (o, w')
    /\ trace w' = trace w ++ new
    /\ Forall (handler_call s) new.
Proof.
  assert (H : exists o w', log_websocket s msgs e w = (o, w')
                           /\ only_calls (handler_call s) w w').
  { unfold log_websocket, accept, log_debug, assign_authenticated, modify.
    unfold bind at 1 2 3 4. simpl.
    set (w0 := set_authenticated _ _).
    assert (C0 : only_calls (handler_call s) w w0).
    { exists [LogDebug (Opened s)]. split; [reflexivity|]. repeat constructor. }
    assert (H1 : exists w1, receive_loop s msgs e w0 = (Val tt, w1)
                            /\ only_calls (handler_call s) w0 w1).
    { unfold receive_loop, try_except, bind.
      destruct (for_in msgs (on_message s) w0) as [o1 w1] eqn:Hfor.
      pose proof (for_in_calls _ _ _ _ _ Hfor) as C1.
      assert (Hclose : exists w2, (let (o0, w') := ws_close s 1000 w1 in
                                   match o0 with
                                   | Val a => (Val a, w')
                                   | Exc _ => ret () w'
                                   end) = (Val tt, w2)
                                  /\ only_calls (handler_call s) w0 w2).
      { destruct (ws_close s 1000 w1) as [[[]|e2] w2] eqn:Hc;
          exists w2; (split; [reflexivity|]);
          (eapply only_calls_trans; [exact C1|]);
          exact (ws_close_calls _ _ _ _ _ Hc (handler_call s)
                   (fun _ => conj eq_refl eq_refl)). }
      destruct o1 as [[]|e1]; [|exact Hclose].
      destruct e as [|e0]; simpl; [|exact Hclose].
      exists w1. split; [reflexivity|exact C1]. }
    destruct H1 as (w1 & Hrun & C1). rewrite Hrun.
    assert (C01 : only_calls (handler_call s) w w1)
      by (eapply only_calls_trans; eassumption).
    unfold cleanup, bind, gets, log_debug, modify, listeners_remove, sockets_remove.
    assert (Hend : forall w2,
              trace w2 = trace w1
              \/ trace w2 = trace w1 ++ [LogDebug (Closed s)] ->
              only_calls (handler_call s) w w2).
    { intros w2 Htr. eapply only_calls_trans; [exact C01|].
      destruct Htr as [Htr|Htr].
      - exists []. rewrite app_nil_r. split; [exact Htr|constructor].
      - exists [LogDebug (Closed s)]. split; [exact Htr|]. repeat constructor. }
    destruct (is_authenticated s w1); simpl.
    - destruct (remove_first s (listeners w1)) as [l|]; simpl.
      + destruct (remove_first s (sockets w1)) as [l'|];
          eexists; eexists; (split; [reflexivity|]); apply Hend; simpl; auto.
      + eexists; eexists; split; [reflexivity|]. apply Hend. auto.
    - destruct (remove_first s (sockets w1)) as [l'|];
        eexists; eexists; (split; [reflexivity|]); apply Hend; simpl; auto. }
  destruct H as (o & w' & Hrun & new & Htr & HF).
  exists o, w', new. repeat split; assumption.
Qed.

(** ** The flag, once set *)

Lemma receive_loop_authenticated s msgs e w :
  is_authenticated s w = true ->
  exists w', receive_loop s msgs e w = (Val tt, w') /\ same_store w w'.
Proof.
  intros Hauth. unfold receive_loop, try_except, bind.
  destruct (for_in msgs (on_message s) w) as [o w1] eqn:Hfor.
  pose proof (for_in_authenticated _ _ _ _ _ Hauth Hfor) as Hst1.
  assert (Hclose : exists w', (let (o0, w') := ws_close s 1000 w1 in
                               match o0 with
                               | Val a => (Val a, w')
                               | Exc _ => ret () w'
                               end) = (Val tt, w') /\ same_store w w').
  { destruct (ws_close s 1000 w1) as [[[]|e2] w2] eqn:Hc;
      exists w2; (split; [reflexivity|]);
      eapply same_store_trans; eauto using ws_close_same_store. }
  destruct o as [[]|e1]; [|exact Hclose].
  destruct e as [|e0]; simpl; [|exact Hclose].
  exists w1. split; [reflexivity|exact Hst1].
Qed.

Lemma cleanup_keeps_flags s w o w' :
  cleanup s w = (o, w') -> authenticated w' = authenticated w.
Proof.
  unfold cleanup, bind, gets, log_debug, modify, listeners_remove, sockets_remove.
  destruct (is_authenticated s w); simpl.
  - destruct (remove_first s (listeners w)); simpl.
    + destruct (remove_first s (sockets w)); intros [= _ <-]; reflexivity.
    + intros [= _ <-]. reflexivity.
  - destruct (remove_first s (sockets w)); intros [= _ <-]; reflexivity.
Qed.

(** X12.  The flag [authenticated] is never unset: once a connection has
    authenticated, the flag stays set through every later message and
    through the end of the handler, so that the timer, whenever it fires,
    does nothing. *)
Theorem authenticated_flag_stays
    (s : ws) (msgs : list frame) (e : ending) (w : world) :
  is_authenticated s w = true ->
  exists o w',
    (receive_loop s msgs e ;; cleanup s) w = (o, w')
    /\ is_authenticated s w' = true
    /\ close_if_not_authenticated s w' = (Val tt, w').
Proof.
  intros Hauth.
  destruct (receive_loop_authenticated s msgs e w Hauth) as (w1 & Hrun & Hst).
  rewrite (bind_val _ _ _ _ _ Hrun).
  destruct (cleanup s w1) as [o w'] eqn:Hc. exists o, w'.
  split; [reflexivity|].
  assert (Hauth' : is_authenticated s w' = true).
  { unfold is_authenticated. rewrite (cleanup_keeps_flags _ _ _ _ Hc).
    rewrite <- Hauth. apply (is_authenticated_same_store s w w1 Hst). }
  split; [exact Hauth'|].
  unfold close_if_not_authenticated, bind, gets. rewrite Hauth'. reflexivity.
Qed.

(** ** [stop_all] on its own *)

(** X13.  Run while no handler changes [sockets], [stop_all] never raises:
    it logs, detaches the handler from the root logger, then calls
    [close(code=1012)] once on every socket of the list, in list order,
    going on after a close that raises.  It sends nothing, and it removes
    no socket and no listener. *)
Theorem stop_all_closes_in_order (w : world) :
  exists w' new,
    stop_all w = (Val tt, w')
    /\ trace w' = trace w ++ LogDebug ClosingAll :: new
    /\ attached w' = false
    /\ close_targets new = (fun s => (s, 1012%Z)) <$> sockets w
    /\ send_targets new = []
    /\ sockets w' = sockets w
    /\ listeners w' = listeners w.
Proof.
  unfold stop_all, stop_all_begin, log_debug, modify, gets, bind.
  destruct (close_all (sockets w) (set_attached false (log_call (LogDebug ClosingAll) w)))
    as (w' & new & Hrun & Htr & Hst & Hcl & Hto).
  exists w', new. simpl in *. split; [exact Hrun|].
  split; [rewrite Htr, <- app_assoc; reflexivity|].
  destruct Hst as (Hli & Hl & _ & Hso & Hat & _).
  repeat split; assumption.
Qed.

(** ** Recording, then subscribing *)



End Connections.

(** * The definitions at work *)

#[local] Existing Instance sample_runtime.
#[local] Existing Instance quiet_stdout.

Lemma sample_transforms_to msg :
  transforms_to (sample_record msg) (sample_content msg).
Proof. intros w. reflexivity. Qed.

Lemma started_loop_open : loop_open started.
Proof. exists new_event_loop. split; reflexivity. Qed.


(** A deque of capacity two drops its oldest item at the third append. *)
Example deque_append_evicts :
  foldl (fun d x => deque_append 2 x d) [] [1; 2; 3] = [2; 3].
Proof. reflexivity. Qed.

(** The transformed event of a record, and what [emit] prints for a record
    logged before [init]. *)
Example emit_before_init :
  emit (sample_record "a") fresh
  = (Val tt, log_call (Print "Logging error:" (AttributeError "loop")) fresh).
Proof. reflexivity. Qed.

(** Three records on a collector that has just been started. *)
Lemma snapshot_last_max_lines_witness :
  lines started = []
  /\ loop_open started
  /\ Forall2 transforms_to
       [sample_record "a"; sample_record "b"; sample_record "c"]
       [sample_content "a"; sample_content "b"; sample_content "c"]
  /\ exists w',
       for_in [sample_record "a"; sample_record "b"; sample_record "c"] emit
         started = (Val tt, w')
       /\ snapshot w'
          = drop (3 - 2048)
              [sample_content "a"; sample_content "b"; sample_content "c"]
       /\ length (snapshot w') = Nat.min 3 2048.
Proof.
  assert (HF : Forall2 transforms_to
                 [sample_record "a"; sample_record "b"; sample_record "c"]
                 [sample_content "a"; sample_content "b"; sample_content "c"]).
  { repeat constructor; apply sample_transforms_to. }
  split; [reflexivity|]. split; [exact started_loop_open|]. split; [exact HF|].
  exact (snapshot_last_max_lines _ _ started eq_refl started_loop_open HF).
Defined.


(** A record logged before [init]: reading [self.loop] raises. *)
Lemma emit_failure_keeps_lines_witness :
  _emit (sample_record "a") fresh = (Exc (AttributeError "loop"), fresh)
  /\ snapshot (emit (sample_record "a") fresh).2 = snapshot fresh.
Proof.
  split; [reflexivity|].
  exact (proj2 (proj2 (emit_failure_keeps_lines (sample_record "a")
                         (AttributeError "loop") fresh fresh eq_refl))).
Defined.


(** C4, the claim as written, on a standard output that has been closed:
    a record that cannot be transformed, and a record logged before [init],
    whose delivery cannot be scheduled.  [_emit] raises, the [print] of the
    [except] clause raises in turn, and that exception reaches the
    producer. *)
Lemma emit_raises_on_closed_stdout :
  _emit bare_record started = (Exc (AttributeError "relativeCreated"), started)
  /\ @Live.emit sample_runtime closed_stdout bare_record started
     = (Exc (ValueError "I/O operation on closed file"),
        log_call (Print "Logging error:" (AttributeError "relativeCreated"))
          started)
  /\ _emit (sample_record "a") fresh = (Exc (AttributeError "loop"), fresh)
  /\ @Live.emit sample_runtime closed_stdout (sample_record "a") fresh
     = (Exc (ValueError "I/O operation on closed file"),
        log_call (Print "Logging error:" (AttributeError "loop")) fresh).
Proof. repeat split. Qed.

(** The same two records on a standard output that takes the line, and
    the first of them on the closed one. *)
Lemma emit_raises_only_from_print_witness :
  (forall e, @print_failure quiet_stdout started "Logging error:" e = None)
  /\ (exists w', Live.emit bare_record started = (Val tt, w'))
  /\ _emit bare_record started = (Exc (AttributeError "relativeCreated"), started)
  /\ @Live.emit sample_runtime closed_stdout bare_record started
     = (Exc (ValueError "I/O operation on closed file"),
        log_call (Print "Logging error:" (AttributeError "relativeCreated"))
          started).
Proof.
  split; [reflexivity|]. split.
  - exact (proj2 (proj2 (proj2
             (@emit_raises_only_from_print sample_runtime quiet_stdout
                bare_record started))) (fun e => eq_refl)).
  - split; [reflexivity|].
    exact (proj1 (proj2
             (@emit_raises_only_from_print sample_runtime closed_stdout
                bare_record started))
             (AttributeError "relativeCreated") started eq_refl).
Defined.

(** C5, the claim as written.  On a loop that has been closed the event
    is handed to the loop, which refuses it, and [_emit] raises what the
    loop raised with nothing appended: the event was not in the history when
    its delivery was being scheduled.  On an open loop it is queued while
    the history is still without it, and appended after that. *)
Lemma delivery_scheduled_before_append :
  transforms_to (sample_record "a") (sample_content "a")
  /\ run_coroutine_threadsafe (sample_content "a") loop_gone
     = (Exc (RuntimeError "Event loop is closed"), loop_gone)
  /\ _emit (sample_record "a") loop_gone
     = (Exc (RuntimeError "Event loop is closed"), loop_gone)
  /\ (sample_content "a" ∉ lines (_emit (sample_record "a") loop_gone).2)
  /\ exists w1,
       run_coroutine_threadsafe (sample_content "a") started = (Val tt, w1)
       /\ scheduled (sample_content "a") w1
       /\ (sample_content "a" ∉ lines w1)
       /\ _emit (sample_record "a") started
          = lines_append (sample_content "a") w1.
Proof.
  split; [intros w; reflexivity|].
  split; [reflexivity|]. split; [reflexivity|].
  split; [apply not_elem_of_nil|].
  eexists. split; [reflexivity|]. split; [|split].
  - eexists. split; [reflexivity|]. simpl. left.
  - simpl. apply not_elem_of_nil.
  - reflexivity.
Qed.

Lemma emit_schedules_then_appends_witness :
  transforms_to (sample_record "a") (sample_content "a")
  /\ (_emit (sample_record "a") started
      = (Val tt,
         set_lines (deque_append MAX_LINES (sample_content "a"))
           (set_loop (Some {| loop_closed := false;
                              pending := [sample_content "a"] |}) started))
      /\ last (lines (_emit (sample_record "a") started).2)
         = Some (sample_content "a"))
  /\ _emit (sample_record "a") loop_gone
     = (Exc (RuntimeError "Event loop is closed"), loop_gone)
  /\ _emit (sample_record "a") fresh = (Exc (AttributeError "loop"), fresh).
Proof.
  split; [exact (sample_transforms_to "a")|].
  split; [|split].
  - exact (emit_schedules_then_appends (sample_record "a") (sample_content "a")
             started (sample_transforms_to "a")).
  - exact (emit_schedules_then_appends (sample_record "a") (sample_content "a")
             loop_gone (sample_transforms_to "a")).
  - exact (emit_schedules_then_appends (sample_record "a") (sample_content "a")
             fresh (sample_transforms_to "a")).
Defined.

(** C3, the claim as written, at one connection: it is accepted, sends
    nothing and is closed by its peer; the handler has returned and the
    socket is no longer tracked when the timer fires, and the timer still
    calls [ws.close(code=4000)] and logs the termination. *)
Lemma timer_acts_after_close :
  exists w1 w2,
    log_websocket 1 [] ConnectionClosed started = (Val tt, w1)
    /\ sockets w1 = []
    /\ close_if_not_authenticated 1 w1 = (Val tt, w2)
    /\ trace w2 = trace w1 ++ [CloseWs 1 4000 None; LogDebug (TerminatedNoAuth 1)]
    /\ w2 <> w1.
Proof.
  eexists. eexists.
  split; [reflexivity|]. split; [reflexivity|]. split; [reflexivity|].
  split; [reflexivity|].
  intros H. apply (f_equal (fun w => length (trace w))) in H. discriminate.
Qed.

(** A connection accepted at time 0 that sends a wrong token: its timer
    is still asleep at time 3, and closes it at time 5. *)
Lemma timer_closes_unauthenticated_witness :
  (forall t, Text t ∈ [Text "guess"; NonText] -> is_valid_token t = false)
  /\ (1 ∉ listeners started)
  /\ (3 < 0 + 5)%Q
  /\ (0 + 5 <= 5)%Q
  /\ wake 3 [auth_timer 0 1] started = (Val [auth_timer 0 1], started)
  /\ exists w1 o w2,
       accept_at 0 1 [] started = (Val [auth_timer 0 1], w1)
       /\ for_in [Text "guess"; NonText] (on_message 1) w1 = (o, w2)
       /\ is_authenticated 1 w2 = false
       /\ (1 ∉ listeners w2)
       /\ (forall now, (0 + 5 <= now)%Q ->
             exists w3,
               wake now [auth_timer 0 1] w2 = (Val [], w3)
               /\ close_targets (trace w3)
                  = close_targets (trace w2) ++ [(1, 4000%Z)])
       /\ (forall i, exists o' w' new,
             Live.send_turn (sample_content "a") i w2 = (o', w')
             /\ trace w' = trace w2 ++ new
             /\ 1 ∉ (send_targets new).*1).
Proof.
  assert (H1 : forall t, Text t ∈ [Text "guess"; NonText] -> is_valid_token t = false).
  { intros t Ht. apply elem_of_cons in Ht as [[= ->]|Ht]; [reflexivity|].
    apply elem_of_cons in Ht as [Ht|Ht]; [discriminate|inversion Ht]. }
  assert (H2 : 1 ∉ listeners started) by apply not_elem_of_nil.
  assert (H3 : (3 < 0 + 5)%Q) by reflexivity.
  assert (H4 : (0 + 5 <= 5)%Q) by discriminate.
  pose proof (timer_closes_unauthenticated 1 0 [Text "guess"; NonText]
                (sample_content "a") started H1 H2) as (Hasleep & _ & _ & Hrun).
  split; [exact H1|]. split; [exact H2|]. split; [exact H3|].
  split; [exact H4|]. split; [exact (Hasleep 3%Q started H3)|exact Hrun].
Defined.


(** C8, the claim as written, at two subscribers, the transport of the
    first being broken and the standard output closed: the failure of the
    send to the first is caught, its [print] raises, and the fan-out ends
    there with that exception; the second subscriber is not sent the
    event. *)
Lemma fan_out_ends_on_closed_stdout :
  listeners two_subscribers = [1; 2]
  /\ @send_json_failure first_broken_runtime two_subscribers 2
       (Event (sample_content "a")) = None
  /\ exists w',
       run_turns 3
         (@Live.send_turn first_broken_runtime closed_stdout (sample_content "a"))
         0 two_subscribers
       = (Exc (ValueError "I/O operation on closed file"), w')
       /\ trace w' = [ SendJson 1 (Event (sample_content "a")) (Some broken_pipe);
                       Print "Log sending error:" broken_pipe ]
       /\ send_targets (trace w') = [(1, Event (sample_content "a"))].
Proof.
  split; [reflexivity|]. split; [reflexivity|].
  eexists. split; [reflexivity|]. split; reflexivity.
Qed.

(** The same fan-out on a standard output that takes the line. *)
Lemma send_survives_failures_witness :
  (forall w0 e, @print_failure quiet_stdout w0 "Log sending error:" e = None)
  /\ exists w' new,
       run_turns 3
         (@Live.send_turn first_broken_runtime quiet_stdout (sample_content "a"))
         0 two_subscribers
       = (Val true, w')
       /\ trace w' = trace two_subscribers ++ new
       /\ send_targets new = [ (1, Event (sample_content "a"));
                               (2, Event (sample_content "a")) ]
       /\ printed "Log sending error:" new = send_failures new
       /\ listeners w' = [1; 2]
       /\ close_targets new = [].
Proof.
  split; [reflexivity|].
  exact (proj2 (proj2 (@send_survives_failures first_broken_runtime quiet_stdout
                         (sample_content "a") two_subscribers))
           (fun _ _ => eq_refl)).
Defined.

(** C6, at two subscribers.  A record is logged and its event handed to
    the loop; [send] sends it to the first subscriber and waits for the
    websocket; the connection of the first subscriber ends meanwhile and its
    handler removes it from [handler.listeners]; the list iterator of
    [send], now at index 1 of a list of length 1, is exhausted: the second
    subscriber, still connected and subscribed, is never sent the event. *)
Theorem send_skips_subscriber :
  exists w1 w2 w3,
    Live.emit (sample_record "a") two_subscribers = (Val tt, w1)
    /\ loop w1 = Some {| loop_closed := false;
                         pending := [sample_content "a"] |}
    /\ Live.send_turn (sample_content "a") 0 w1 = (Val (Some 1), w2)
    /\ (receive_loop 1 [] ConnectionClosed ;; cleanup 1) w2 = (Val tt, w3)
    /\ Live.send_turn (sample_content "a") 1 w3 = (Val None, w3)
    /\ listeners w3 = [2]
    /\ sockets w3 = [2]
    /\ is_authenticated 2 w3 = true
    /\ send_targets (trace w3) = [(1, Event (sample_content "a"))].
Proof.
  do 3 eexists.
  split; [reflexivity|]. split; [reflexivity|]. split; [reflexivity|].
  split; [reflexivity|]. repeat split; reflexivity.
Qed.

(** C7, at two open connections.  [stop_all] closes the first socket and
    waits for the close; the handler of that socket leaves its loop and
    removes the socket from [sockets]; the list iterator of [stop_all], now
    at index 1 of a list of length 1, is exhausted: the second socket is
    still tracked and was never closed. *)
Theorem stop_all_skips_socket :
  exists w1 w2 w3,
    (accept 1 ;; accept 2) started = (Val tt, two_connections)
    /\ stop_all_begin two_connections = (Val tt, w1)
    /\ stop_all_turn 0 w1 = (Val (Some 1), w2)
    /\ (receive_loop 1 [] ConnectionClosed ;; cleanup 1) w2 = (Val tt, w3)
    /\ stop_all_turn 1 w3 = (Val None, w3)
    /\ attached w3 = false
    /\ sockets w3 = [2]
    /\ close_targets (trace w3) = [(1, 1012%Z)].
Proof.
  do 3 eexists.
  split; [reflexivity|]. split; [reflexivity|]. split; [reflexivity|].
  split; [reflexivity|]. repeat split; reflexivity.
Qed.

(** * The rest of the module at work *)

Lemma dated_transforms_to : transforms_to dated_record dated_content.
Proof. intros w. reflexivity. Qed.

Lemma dated_record_NoDup : NoDup (Dict.keys dated_record).
Proof. apply (bool_decide_unpack _). vm_compute. exact I. Qed.

Lemma fresh_loop_not_open : ~ loop_open fresh.
Proof. intros (l & Hl & _). discriminate. Qed.

Lemma sample_sends_succeed (s : ws) :
  forall w0 m, send_json_failure w0 s m = None.
Proof. intros w0 m. reflexivity. Qed.

Lemma event_own_keys_witness :
  NoDup (Dict.keys dated_record)
  /\ transforms_to dated_record dated_content
  /\ exists relativeCreated msg created time iso exc_info,
       Dict.get "relativeCreated" dated_record = Some relativeCreated
       /\ getMessage dated_record = inr msg
       /\ Dict.get "created" dated_record = Some created
       /\ fromtimestamp created = inr time
       /\ astimezone_isoformat time = inr iso
       /\ Dict.get "exc_info" dated_record = Some exc_info
       /\ Dict.get "id" dated_content = Some (VStr (py_str relativeCreated))
       /\ Dict.get "msg" dated_content = Some (VStr msg)
       /\ Dict.get "time" dated_content = Some (VStr iso)
       /\ (truthy exc_info = false -> Dict.get "exc_info" dated_content = None)
       /\ (truthy exc_info = true ->
           exists text, formatException exc_info = inr text
                        /\ Dict.get "exc_info" dated_content = Some (VStr text)).
Proof.
  split; [exact dated_record_NoDup|]. split; [exact dated_transforms_to|].
  exact (event_own_keys dated_record dated_content
           dated_record_NoDup dated_transforms_to).
Defined.

Lemma event_has_no_datetime_witness :
  NoDup (Dict.keys dated_record)
  /\ transforms_to dated_record dated_content
  /\ Dict.get "deadline" dated_record
     = Some (VDatetime {| micros := 0; tz := None |})
  /\ is_datetime (VStr "2022-01-01T00:00:00+00:00") = false.
Proof.
  split; [exact dated_record_NoDup|]. split; [exact dated_transforms_to|].
  split; [reflexivity|].
  exact (event_has_no_datetime dated_record dated_content
           dated_record_NoDup dated_transforms_to
           "deadline" (VStr "2022-01-01T00:00:00+00:00") eq_refl).
Defined.

Lemma emit_without_open_loop_witness :
  ~ loop_open fresh
  /\ exists e, emit (sample_record "a") fresh
               = (Val tt, log_call (Print "Logging error:" e) fresh).
Proof.
  split; [exact fresh_loop_not_open|].
  exact (emit_without_open_loop (sample_record "a") fresh fresh_loop_not_open).
Defined.

Lemma history_bounded_witness :
  length (lines started) <= 2048
  /\ exists w', for_in [sample_record "a"; dated_record] emit started = (Val tt, w')
                /\ length (snapshot w') <= 2048.
Proof.
  assert (H : length (lines started) <= 2048) by (simpl; lia).
  split; [exact H|].
  exact (history_bounded [sample_record "a"; dated_record] started H).
Defined.

Lemma emit_queues_in_order_witness :
  loop started = Some new_event_loop
  /\ loop_closed new_event_loop = false
  /\ Forall2 transforms_to [sample_record "a"; dated_record]
                           [sample_content "a"; dated_content]
  /\ exists w',
       for_in [sample_record "a"; dated_record] emit started = (Val tt, w')
       /\ loop w' = Some {| loop_closed := false;
                            pending := pending new_event_loop
                                       ++ [sample_content "a"; dated_content] |}.
Proof.
  assert (HF : Forall2 transforms_to [sample_record "a"; dated_record]
                                     [sample_content "a"; dated_content]).
  { constructor; [apply sample_transforms_to|].
    constructor; [apply dated_transforms_to|constructor]. }
  split; [reflexivity|]. split; [reflexivity|]. split; [exact HF|].
  exact (emit_queues_in_order _ _ new_event_loop started eq_refl eq_refl HF).
Defined.

Lemma init_then_emit_witness :
  loop_closed new_event_loop = false
  /\ transforms_to (sample_record "a") (sample_content "a")
  /\ exists w',
       (init new_event_loop ;; emit (sample_record "a")) fresh = (Val tt, w')
       /\ attached w' = true
       /\ lines w' = deque_append MAX_LINES (sample_content "a") (lines fresh)
       /\ last (lines w') = Some (sample_content "a")
       /\ loop w' = Some {| loop_closed := false;
                            pending := pending new_event_loop
                                       ++ [sample_content "a"] |}.
Proof.
  split; [reflexivity|]. split; [exact (sample_transforms_to "a")|].
  exact (init_then_emit new_event_loop _ _ fresh eq_refl (sample_transforms_to "a")).
Defined.

Lemma authenticated_ignores_bad_tokens_witness :
  is_authenticated 1 subscribed = true
  /\ (forall t, Text t ∈ [Text "guess"; NonText] -> is_valid_token t = false)
  /\ for_in [Text "guess"; NonText] (on_message 1) subscribed = (Val tt, subscribed).
Proof.
  assert (H2 : forall t, Text t ∈ [Text "guess"; NonText] -> is_valid_token t = false).
  { intros t Ht. apply elem_of_cons in Ht as [[= ->]|Ht]; [reflexivity|].
    apply elem_of_cons in Ht as [Ht|Ht]; [discriminate|inversion Ht]. }
  split; [reflexivity|]. split; [exact H2|].
  exact (authenticated_ignores_bad_tokens 1 [Text "guess"; NonText] subscribed
           eq_refl H2).
Defined.

Lemma authenticated_replays_history_witness :
  is_authenticated 1 subscribed_late = true
  /\ exists w',
       for_in [Text "secret"; NonText; Text "guess"] (on_message 1)
         subscribed_late = (Val tt, w')
       /\ trace w' = trace subscribed_late
                     ++ [ SendJson 1 (AuthSuccess true) None;
                          SendJson 1 (History [sample_content "a";
                                               sample_content "b"]) None ]
       /\ same_store subscribed_late w'.
Proof.
  split; [reflexivity|].
  exact (authenticated_replays_history 1 [Text "secret"; NonText; Text "guess"]
           subscribed_late eq_refl (sample_sends_succeed 1)).
Defined.

Lemma unauthenticated_may_retry_witness :
  is_authenticated 2 subscribed = false
  /\ (forall t, Text t ∈ [Text "guess"; NonText] -> is_valid_token t = false)
  /\ exists w',
       for_in [Text "guess"; NonText] (on_message 2) subscribed = (Val tt, w')
       /\ trace w' = trace subscribed ++ refusals 2 [Text "guess"; NonText]
       /\ same_store subscribed w'.
Proof.
  assert (H2 : forall t, Text t ∈ [Text "guess"; NonText] -> is_valid_token t = false).
  { intros t Ht. apply elem_of_cons in Ht as [[= ->]|Ht]; [reflexivity|].
    apply elem_of_cons in Ht as [Ht|Ht]; [discriminate|inversion Ht]. }
  split; [reflexivity|]. split; [exact H2|].
  exact (unauthenticated_may_retry 2 [Text "guess"; NonText] subscribed
           eq_refl H2 (sample_sends_succeed 2)).
Defined.

Lemma handler_cleans_up_witness :
  (2 ∉ sockets subscribed)
  /\ (2 ∉ listeners subscribed)
  /\ exists w',
       log_websocket 2 [Text "guess"; Text "secret"] ConnectionClosed subscribed
       = (Val tt, w')
       /\ sockets w' = sockets subscribed
       /\ listeners w' = listeners subscribed.
Proof.
  assert (H : 2 ∉ [1]).
  { intros Hin. apply elem_of_cons in Hin as [Hin|Hin]; [discriminate|inversion Hin]. }
  split; [exact H|]. split; [exact H|].
  exact (handler_cleans_up 2 [Text "guess"; Text "secret"] ConnectionClosed
           subscribed H H).
Defined.

Lemma authenticated_flag_stays_witness :
  is_authenticated 1 subscribed = true
  /\ exists o w',
       (receive_loop 1 [Text "guess"] (ReceiveFailed (OtherError "OSError" "reset")) ;;
        cleanup 1) subscribed = (o, w')
       /\ is_authenticated 1 w' = true
       /\ close_if_not_authenticated 1 w' = (Val tt, w').
Proof.
  split; [reflexivity|].
  exact (authenticated_flag_stays 1 [Text "guess"]
           (ReceiveFailed (OtherError "OSError" "reset")) subscribed eq_refl).
Defined.



(** A refused token whose answer cannot be sent, on a connection whose
    close raises as well. *)
Lemma failure_ends_receive_loop_witness :
  for_in [NonText] (@on_message failing_runtime 1) started = (Val tt, started)
  /\ @on_message failing_runtime 1 (Text "guess") started
     = (Exc broken_pipe,
        log_call (SendJson 1 (AuthSuccess false) (Some broken_pipe)) started)
  /\ @receive_loop failing_runtime 1 ([NonText] ++ Text "guess" :: [Text "secret"])
       ConnectionClosed started
     = (Val tt,
        log_call (CloseWs 1 1000 (Some broken_pipe))
          (log_call (SendJson 1 (AuthSuccess false) (Some broken_pipe)) started)).
Proof.
  split; [reflexivity|]. split; [reflexivity|].
  exact (@failure_ends_receive_loop failing_runtime 1 [NonText] [Text "secret"]
           (Text "guess") ConnectionClosed broken_pipe started started
           (log_call (SendJson 1 (AuthSuccess false) (Some broken_pipe)) started)
           eq_refl eq_refl).
Defined.

(** A record that cannot be transformed between two that can. *)
Lemma bad_records_are_skipped_witness :
  loop_open started
  /\ length (lines started) <= 2048
  /\ omap event_of [sample_record "a"; bare_record; dated_record]
     = [sample_content "a"; dated_content]
  /\ exists w' new,
       for_in [sample_record "a"; bare_record; dated_record] emit started
       = (Val tt, w')
       /\ trace w' = trace started ++ new
       /\ snapshot w'
          = drop (length (lines started
                          ++ omap event_of
                               [sample_record "a"; bare_record; dated_record])
                  - 2048)
                 (lines started
                  ++ omap event_of [sample_record "a"; bare_record; dated_record])
       /\ length (printed "Logging error:" new)
          + length (omap event_of [sample_record "a"; bare_record; dated_record])
          = length [sample_record "a"; bare_record; dated_record].
Proof.
  assert (H : length (lines started) <= 2048) by (simpl; lia).
  split; [exact started_loop_open|]. split; [exact H|]. split; [reflexivity|].
  exact (bad_records_are_skipped [sample_record "a"; bare_record; dated_record]
           started started_loop_open H).
Defined.
